(** * Meeting transcription pipeline: a shallow embedding of the Motia steps

    Sources embedded here:
    - [steps/meeting-transcription-processor.step.ts]  (Transcription Stage)
    - [steps/meeting-summarizer.step.ts]               (Analysis Stage and
                                                        Text-Analysis Engine)
    - the [MeetingTranscriptionAPI] handler listed in
      [meeting_transcript_example/README.md]           (Ingress Stage)
    - [steps/meeting-transcription.stream.ts]          (the stream's schema)

    JavaScript objects written to the stream or carried by events are finite
    maps from field names to JSON values; a field whose value is [undefined]
    is absent.  Every [await] on the stream or on [emit] is an effect that
    may reject; which one rejects, and with which message, is given by the
    environment, as are the clock ([Date.now()]) and [Math.random()].
    Logging is not modelled (it has no observable effect here).
    Text is modelled byte-wise (ASCII transcripts). *)

From Stdlib Require Import QArith Qround Qminmax ZArith Sorted DecimalString DecimalN Lqa.
From stdpp Require Import base gmap strings list.

Open Scope string_scope.
Set Warnings "-register-all".

(** ** JSON values and stream items *)

Inductive Val : Type :=
  | VStr (s : string)
  | VNum (q : Q)
  | VBool (b : bool)
  | VArr (l : list Val)
  | VObj (fs : list (string * Val)).

Abbreviation Item := (gmap string Val).

Definition num (z : Z) : Val := VNum (inject_Z z).
Definition strs (l : list string) : Val := VArr (map VStr l).

(** An object literal; fields whose value is [undefined] ([None]) are
    dropped. *)
Definition obj (fs : list (string * option Val)) : Item :=
  list_to_map (omap (fun kv => match kv.2 with
                               | Some v => Some (kv.1, v)
                               | None => None
                               end) fs).

(** [new Date().toISOString()]: the rendering of a clock reading is
    abstracted to its decimal digits, and [new Date(ts).getTime()] parses
    them back. *)
Definition string_of_N (t : N) : string := NilEmpty.string_of_uint (N.to_uint t).
Definition iso (t : N) : Val := VStr (string_of_N t).
Definition parse_iso (ts : string) : option N :=
  option_map N.of_uint (NilEmpty.uint_of_string ts).

Record Event : Type := mkEvent { topic : string; data : Item }.

(** ** The runtime: stream store, event bus, failures, clock, randomness *)

(** Store of the [meetingTranscription] stream.  [set_items] holds the
    items addressed by [(groupId, id)]; [set_log] is the sequence of [set]
    updates pushed to the stream's subscribers, in order; [added] holds the
    items written with [add]; [published] is the event log of [emit]. *)
Record St : Type := mkSt {
  set_items : gmap (string * string) Item;
  set_log : list (string * string * Item);
  added : list Item;
  published : list Event
}.

(** The environment of one handler run: the n-th effect of the run rejects
    with message [m] when [fault n = Some m]; [clock n] is [Date.now()] at
    the n-th step; [random36 n] is [Math.random().toString(36).substr(2, 9)]
    and [random_below n k] is [Math.floor(Math.random() * k)]. *)
Record Env : Type := mkEnv {
  fault : nat -> option string;
  clock : nat -> N;
  random36 : nat -> string;
  random_below : nat -> Z -> Z
}.

Inductive Res (A : Type) : Type :=
  | Ok (a : A)
  | Thrown (msg : string).
Arguments Ok {A} a.
Arguments Thrown {A} msg.

(** An [async] computation: reads the environment, threads the step
    counter and the store, returns a value or a rejection. *)
Definition M (A : Type) : Type := Env -> nat -> St -> Res A * nat * St.

Definition ret {A} (a : A) : M A := fun _ n s => (Ok a, n, s).

Definition bind {A B} (m : M A) (k : A -> M B) : M B :=
  fun e n s =>
    match m e n s with
    | (Ok a, n', s') => k a e n' s'
    | (Thrown msg, n', s') => (Thrown msg, n', s')
    end.

Notation "x <- m ;; k" := (bind m (fun x => k))
  (at level 65, m at next level, right associativity).

(** [try { m } catch (error) { h(error.message) }] *)
Definition try_catch {A} (m : M A) (h : string -> M A) : M A :=
  fun e n s =>
    match m e n s with
    | (Thrown msg, n', s') => h msg e n' s'
    | r => r
    end.

Definition throw {A} (msg : string) : M A := fun _ n s => (Thrown msg, n, s).

(** An awaited effect on the store that may reject. *)
Definition perform {A} (f : St -> A * St) : M A :=
  fun e n s =>
    match fault e n with
    | Some msg => (Thrown msg, S n, s)
    | None => let '(a, s') := f s in (Ok a, S n, s')
    end.

Definition now : M N := fun e n s => (Ok (clock e n), S n, s).
Definition rand36 : M string := fun e n s => (Ok (random36 e n), S n, s).
Definition rand_below (k : Z) : M Z :=
  fun e n s => (Ok (random_below e n k), S n, s).

(** [await new Promise(resolve => setTimeout(resolve, 1000))] *)
Definition sleep : M unit := ret tt.

Fixpoint for_each {A} (l : list A) (f : A -> M unit) : M unit :=
  match l with
  | [] => ret tt
  | x :: l' => _ <- f x ;; for_each l' f
  end.

(** Modelled from the spec (section 4.1, the State Store [put], provided by
    the Motia runtime and not part of this repository): [set] merges the
    given fields into the item at [(groupId, id)], creating it if absent,
    and returns the resulting full item. *)
Definition stream_set (g i : string) (d : Item) : M Item :=
  perform (fun s =>
    let it := d ∪ default ∅ (set_items s !! (g, i)) in
    (it, mkSt (<[(g, i) := it]> (set_items s)) (set_log s ++ [(g, i, d)])
              (added s) (published s))).

(** Modelled from the spec (section 2, the State Store's append-style
    history): [add] appends a new item to the stream. *)
Definition stream_add (d : Item) : M unit :=
  perform (fun s =>
    (tt, mkSt (set_items s) (set_log s) (added s ++ [d]) (published s))).

(** [emit]: publish an event on the bus (a rejected emit publishes
    nothing). *)
Definition emit (ev : Event) : M unit :=
  perform (fun s =>
    (tt, mkSt (set_items s) (set_log s) (added s) (published s ++ [ev]))).

(** ** Ingress Stage ([MeetingTranscriptionAPI], listed in the README) *)

(** The request body; every field may be missing. *)
Record ApiBody : Type := mkApiBody {
  ab_filename : option string;
  ab_audioData : option string;
  ab_language : option string;
  ab_model : option string;
  ab_localWhisperPath : option string
}.

Record Response : Type := mkResponse {
  resp_status : Z;
  resp_body : Item
}.

(** [x || d] on an optional string: [undefined] and [""] are falsy. *)
Definition or_default (x : option string) (d : string) : string :=
  match x with
  | Some v => if String.eqb v "" then d else v
  | None => d
  end.

(** [!x] on an optional string. *)
Definition falsy (x : option string) : bool :=
  match x with
  | Some v => String.eqb v ""
  | None => true
  end.

(** [`trans_${Date.now()}_${Math.random().toString(36).substr(2, 9)}`] *)
Definition transcription_id (t : N) (r : string) : string :=
  "trans_" ++ string_of_N t ++ "_" ++ r.

Definition api_handler (traceId : string) (b : ApiBody) : M Response :=
  try_catch
    (if falsy (ab_filename b) then
       ret (mkResponse 400
              (obj [("error", Some (VStr "Missing required field: filename"));
                    ("details", Some (VStr "The filename field is required for transcription"))]))
     else
       t <- now ;;
       r <- rand36 ;;
       let transcriptionId := transcription_id t r in
       let localWhisperPath :=
         or_default (ab_localWhisperPath b) "./scripts/transcribe_whisper.py" in
       t1 <- now ;;
       streamResult <- stream_set traceId transcriptionId
         (obj [("status", Some (VStr "uploading"));
               ("progress", Some (num 0));
               ("filename", option_map VStr (ab_filename b));
               ("localWhisperStatus", Some (VStr "pending"));
               ("whisperModel", option_map VStr (ab_model b));
               ("timestamp", Some (iso t1))]) ;;
       _ <- emit (mkEvent "meeting-transcription"
                  (obj [("filename", option_map VStr (ab_filename b));
                        ("audioData", option_map VStr (ab_audioData b));
                        ("language", Some (VStr (or_default (ab_language b) "en")));
                        ("model", Some (VStr (or_default (ab_model b) "whisper-large-v3")));
                        ("transcriptionId", Some (VStr transcriptionId));
                        ("apiRequest", Some (VBool true));
                        ("localWhisperPath", Some (VStr localWhisperPath))])) ;;
       (* the spread [...streamResult] comes last, so its fields win *)
       ret (mkResponse 200
              (streamResult ∪
               obj [("message", Some (VStr "Meeting transcription request submitted successfully"));
                    ("traceId", Some (VStr traceId));
                    ("transcriptionId", Some (VStr transcriptionId));
                    ("streamId", Some (VStr transcriptionId));
                    ("localWhisperPath", Some (VStr localWhisperPath))])))
    (fun msg =>
       ret (mkResponse 400
              (obj [("error", Some (VStr "Failed to process transcription request"));
                    ("details", Some (VStr msg))]))).

(** ** Transcription Stage ([MeetingTranscriptionProcessor]) *)

(** The validated event input ([config.input]). *)
Record ProcInput : Type := mkProcInput {
  pi_filename : string;
  pi_audioData : option string;
  pi_language : string;
  pi_model : string;
  pi_transcriptionId : string;
  pi_apiRequest : option bool;
  pi_localWhisperPath : option string
}.

Definition transcriptionSteps : list (Z * string * string) :=
  [(20%Z, "Loading Whisper model", "loading_model");
   (40%Z, "Processing audio file", "processing_audio");
   (60%Z, "Generating transcript", "generating_transcript");
   (80%Z, "Post-processing results", "post_processing");
   (90%Z, "Finalizing transcription", "finalizing")].

Definition mockTranscript (filename : string) : string :=
  "This is a simulated transcript for " ++ filename ++ ". 
    In a real implementation, this would be the actual transcription from the Whisper API.
    The transcript would include all spoken content with proper punctuation and formatting.".

Definition mockParticipants : list string := ["John Doe"; "Jane Smith"; "Bob Johnson"].

Definition mockActionItems : list string :=
  ["Schedule follow-up meeting"; "Review project timeline"; "Update documentation"].

Definition processor (traceId : string) (input : ProcInput) : M unit :=
  let id := pi_transcriptionId input in
  try_catch
    (t0 <- now ;;
     _ <- stream_set traceId id
            (obj [("status", Some (VStr "transcribing"));
                  ("progress", Some (num 10));
                  ("filename", Some (VStr (pi_filename input)));
                  ("localWhisperStatus", Some (VStr "initializing"));
                  ("whisperModel", Some (VStr (pi_model input)));
                  ("timestamp", Some (iso t0))]) ;;
     startTime <- now ;;
     _ <- for_each transcriptionSteps (fun step =>
            let '(progress, _, whisperStatus) := step in
            _ <- sleep ;;
            t <- now ;;
            _ <- stream_set traceId id
                   (obj [("status", Some (VStr "transcribing"));
                         ("progress", Some (num progress));
                         ("filename", Some (VStr (pi_filename input)));
                         ("localWhisperStatus", Some (VStr whisperStatus));
                         ("whisperModel", Some (VStr (pi_model input)));
                         ("timestamp", Some (iso t))]) ;;
            ret tt) ;;
     r <- rand_below 3600 ;;
     let mockDuration := (r + 300)%Z in
     t1 <- now ;;
     let processingTime := (Z.of_N t1 - Z.of_N startTime)%Z in
     t2 <- now ;;
     _ <- stream_set traceId id
            (obj [("status", Some (VStr "completed"));
                  ("progress", Some (num 100));
                  ("filename", Some (VStr (pi_filename input)));
                  ("duration", Some (num mockDuration));
                  ("transcript", Some (VStr (mockTranscript (pi_filename input))));
                  ("participants", Some (strs mockParticipants));
                  ("actionItems", Some (strs mockActionItems));
                  ("localWhisperStatus", Some (VStr "completed"));
                  ("whisperModel", Some (VStr (pi_model input)));
                  ("processingTime", Some (num processingTime));
                  ("timestamp", Some (iso t2))]) ;;
     t3 <- now ;;
     emit (mkEvent "transcription-completed"
             (obj [("filename", Some (VStr (pi_filename input)));
                   ("transcriptionId", Some (VStr id));
                   ("duration", Some (num mockDuration));
                   ("transcript", Some (VStr (mockTranscript (pi_filename input))));
                   ("participants", Some (strs mockParticipants));
                   ("actionItems", Some (strs mockActionItems));
                   ("processingTime", Some (num processingTime));
                   ("whisperModel", Some (VStr (pi_model input)));
                   ("timestamp", Some (iso t3))])))
    (fun msg =>
     t <- now ;;
     _ <- stream_set traceId id
            (obj [("status", Some (VStr "failed"));
                  ("progress", Some (num 0));
                  ("filename", Some (VStr (pi_filename input)));
                  ("error", Some (VStr msg));
                  ("localWhisperStatus", Some (VStr "failed"));
                  ("whisperModel", Some (VStr (pi_model input)));
                  ("timestamp", Some (iso t))]) ;;
     t' <- now ;;
     emit (mkEvent "transcription-failed"
             (obj [("filename", Some (VStr (pi_filename input)));
                   ("transcriptionId", Some (VStr id));
                   ("error", Some (VStr msg));
                   ("whisperModel", Some (VStr (pi_model input)));
                   ("timestamp", Some (iso t'))]))).

(** ** Observations *)

#[global] Instance Q_eq_dec : EqDecision Q.
Proof. solve_decision. Defined.

Definition str_field (it : Item) (k : string) : option string :=
  match it !! k with Some (VStr v) => Some v | _ => None end.

Definition num_field (it : Item) (k : string) : option Q :=
  match it !! k with Some (VNum q) => Some q | _ => None end.

(** Status and progress of a written item. *)
Definition status_progress (it : Item) : option string * option Q :=
  (str_field it "status", num_field it "progress").

(** The [set] updates a run pushes, by status and progress, in order. *)
Definition new_writes (s s' : St) : list (option string * option Q) :=
  map (fun w => status_progress w.2) (drop (length (set_log s)) (set_log s')).

(** The events a run publishes, in order. *)
Definition new_events (s s' : St) : list Event :=
  drop (length (published s)) (published s').

Definition is_terminal (w : option string * option Q) : bool :=
  match w.1 with Some "completed" | Some "failed" => true | _ => false end.

(** The writes before the first terminal write, and that write. *)
Fixpoint before_terminal (ws : list (option string * option Q))
    : list (option string * option Q) :=
  match ws with
  | [] => []
  | w :: ws' => if is_terminal w then [] else w :: before_terminal ws'
  end.

Fixpoint first_terminal (ws : list (option string * option Q))
    : option (option string * option Q) :=
  match ws with
  | [] => None
  | w :: ws' => if is_terminal w then Some w else first_terminal ws'
  end.

Definition progresses (ws : list (option string * option Q)) : list Q :=
  omap snd ws.

Definition sp (s : string) (p : Z) : option string * option Q :=
  (Some s, Some (inject_Z p)).

(** The checkpoints of a successful transcription run, in order. *)
Definition transcription_schedule : list (option string * option Q) :=
  [sp "transcribing" 10; sp "transcribing" 20; sp "transcribing" 40;
   sp "transcribing" 60; sp "transcribing" 80; sp "transcribing" 90;
   sp "completed" 100].

Definition failure_write : option string * option Q := sp "failed" 0.

(** Every update sequence a transcription run can push: a prefix of the
    schedule (cut by a rejected effect), then possibly the failure write. *)
Definition transcription_runs : list (list (option string * option Q)) :=
  ws ← (k ← seq 0 8; [take k transcription_schedule]);
  [ws; app ws [failure_write]].

(** The contract of the progress updates pushed by one transcription run. *)
Definition progress_contract (ws : list (option string * option Q)) : Prop :=
  let pre := before_terminal ws in
  (pre = [] \/ head pre = Some (sp "transcribing" 10)) /\
  Forall (fun w => w.1 = Some "transcribing" /\
                   exists p : Z, w.2 = Some (inject_Z p) /\ (10 < p < 100)%Z) (tail pre) /\
  Sorted Qlt (progresses pre) /\
  (forall w, first_terminal ws = Some w -> w.1 = Some "completed" ->
     w.2 = Some 100%Q /\ 2 <= length pre /\
     Sorted Qle (progresses (app pre [w]))).

(** ** String primitives of JavaScript, on byte strings *)

(** [s.split(c)] for a one-character separator: keeps empty pieces. *)
Fixpoint split_on (c : Ascii.ascii) (s : string) : list string :=
  match s with
  | EmptyString => [""]
  | String a s' =>
      let rest := split_on c s' in
      if Ascii.eqb a c then "" :: rest
      else match rest with
           | r :: rs => String a r :: rs
           | [] => [String a ""]
           end
  end.

Definition newline : Ascii.ascii := Ascii.ascii_of_nat 10.
Definition space : Ascii.ascii := Ascii.ascii_of_nat 32.

Definition lower_char (a : Ascii.ascii) : Ascii.ascii :=
  let k := Ascii.nat_of_ascii a in
  if Nat.leb 65 k && Nat.leb k 90 then Ascii.ascii_of_nat (k + 32)%nat else a.

(** [s.toLowerCase()] *)
Fixpoint toLowerCase (s : string) : string :=
  match s with
  | EmptyString => EmptyString
  | String a s' => String (lower_char a) (toLowerCase s')
  end.

(** [s.includes(sub)] *)
Fixpoint includes (s sub : string) : bool :=
  String.prefix sub s ||
  match s with
  | EmptyString => false
  | String _ s' => includes s' sub
  end.

Definition is_space (a : Ascii.ascii) : bool :=
  let k := Ascii.nat_of_ascii a in (Nat.leb 9 k && Nat.leb k 13) || Nat.eqb k 32.

Fixpoint trim_start (s : string) : string :=
  match s with
  | String a s' => if is_space a then trim_start s' else s
  | EmptyString => EmptyString
  end.

Fixpoint rev_str (s : string) : string :=
  match s with
  | EmptyString => EmptyString
  | String a s' => rev_str s' ++ String a EmptyString
  end.

(** [s.trim()] *)
Definition trim (s : string) : string := rev_str (trim_start (rev_str (trim_start s))).

Definition js_length (s : string) : Z := Z.of_nat (String.length s).

(** [Math.ceil], [Math.round] and the decimal rendering of a number *)
Definition js_ceil (q : Q) : Z := Qceiling q.
Definition js_round (q : Q) : Z := Qfloor (q + (1 # 2)).
Definition string_of_Z (z : Z) : string := NilEmpty.string_of_int (Z.to_int z).

(** ** Text-Analysis Engine ([meeting-summarizer.step.ts]) *)

Definition generateMeetingSummary (transcript : string) : string :=
  let lines := filter (fun line => negb (String.eqb (trim line) ""))
                      (split_on newline transcript) in
  let wordCount := Z.of_nat (length (split_on space transcript)) in
  let importantSentences :=
    map trim (take 3 (filter (fun line => (50 <? js_length line)%Z) lines)) in
  trim ("
📋 Meeting Summary:
This " ++ string_of_Z (js_ceil (inject_Z wordCount / 150)) ++
"-minute meeting covered several key areas. " ++
String.concat " " importantSentences ++ "

🎯 Key Outcomes:
• Main discussion topics were identified and addressed
• Team collaboration and coordination points were established
• Forward-looking action items were assigned to participants

💡 Overall Assessment:
The meeting was productive with clear outcomes and next steps defined.
  ").

Definition actionWords : list string :=
  ["will"; "should"; "need to"; "must"; "action"; "todo"; "follow up";
   "complete"; "deliver"].

(** [l.find(f)] *)
Fixpoint js_find (f : string -> bool) (l : list string) : option string :=
  match l with
  | [] => None
  | x :: l' => if f x then Some x else js_find f l'
  end.

(** [l.some(f)] *)
Definition js_some (f : string -> bool) (l : list string) : bool :=
  existsb f l.

Definition extractActionItems (transcript : string)
    (participants : option (list string)) : list string :=
  let lines := split_on newline (toLowerCase transcript) in
  let found :=
    omap (fun line =>
      if js_some (includes line) actionWords && (30 <? js_length line)%Z then
        let assignee :=
          match participants with
          | Some ps => js_find (fun p =>
              includes line (default "" (head (split_on space (toLowerCase p))))) ps
          | None => None
          end in
        (* [found || 'Team member']: the empty name is falsy *)
        let assignee := match assignee with
                        | Some p => if String.eqb p "" then "Team member" else p
                        | None => "Team member"
                        end in
        Some (assignee ++ ": " ++ trim line)
      else None) lines in
  let actionItems :=
    match found with
    | [] => ["Team: Follow up on discussed topics from this meeting";
             "Organizer: Schedule next meeting to review progress";
             "Participants: Review meeting notes and prepare for next session"]
    | _ => found
    end in
  take 5 actionItems.

Definition topicKeywords : list (string * list string) :=
  [("Project Management", ["project"; "timeline"; "deadline"; "milestone"; "deliverable"]);
   ("Budget & Finance", ["budget"; "cost"; "expense"; "financial"; "revenue"; "profit"]);
   ("Team & Personnel", ["team"; "staff"; "hire"; "employee"; "resource"; "people"]);
   ("Strategy & Planning", ["strategy"; "plan"; "goal"; "objective"; "vision"; "future"]);
   ("Technology", ["system"; "software"; "platform"; "api"; "technical"; "development"]);
   ("Sales & Marketing", ["sales"; "marketing"; "customer"; "client"; "campaign"; "revenue"]);
   ("Operations", ["process"; "workflow"; "operation"; "efficiency"; "procedure"]);
   ("Quality & Performance", ["quality"; "performance"; "metrics"; "improvement"; "optimization"])].

Definition extractKeyTopics (transcript : string) : list string :=
  let text := toLowerCase transcript in
  let identifiedTopics :=
    omap (fun tk =>
      let matches := filter (includes text) tk.2 in
      if Nat.leb 2 (length matches) then Some tk.1 else None) topicKeywords in
  match identifiedTopics with
  | [] => ["General Discussion"; "Team Coordination"]
  | _ => identifiedTopics
  end.

Record Sentiment : Type := mkSentiment {
  overall : string;
  confidence : Q;
  positiveIndicators : Z;
  negativeIndicators : Z;
  energyLevel : string
}.

Definition positiveWords : list string :=
  ["great"; "excellent"; "good"; "success"; "achieve"; "progress"; "positive";
   "agree"; "yes"].
Definition negativeWords : list string :=
  ["problem"; "issue"; "concern"; "difficult"; "challenge"; "delay"; "failed";
   "no"; "disagree"].

Definition analyzeSentiment (transcript : string) : Sentiment :=
  let text := toLowerCase transcript in
  let positiveCount := Z.of_nat (length (filter (includes text) positiveWords)) in
  let negativeCount := Z.of_nat (length (filter (includes text) negativeWords)) in
  let overall :=
    if (negativeCount <? positiveCount)%Z then "positive"
    else if (positiveCount <? negativeCount)%Z then "negative"
    else "neutral" in
  mkSentiment overall
    (Qmin (95 # 100) ((6 # 10) + inject_Z (Z.abs (positiveCount - negativeCount)) * (1 # 10)))
    positiveCount negativeCount
    (if includes text "excited" || includes text "enthusiastic" then "high" else "medium").

Definition decisionWords : list string :=
  ["decided"; "agreed"; "approved"; "concluded"; "determined"; "resolved"].

Definition extractDecisions (transcript : string) : list string :=
  let lines := split_on newline transcript in
  let decisions :=
    omap (fun line =>
      if js_some (includes (toLowerCase line)) decisionWords && (40 <? js_length line)%Z
      then Some (trim line) else None) lines in
  take 3 decisions.

Record Insights : Type := mkInsights {
  participationScore : Z;
  engagementLevel : string;
  meetingEfficiency : string;
  followUpNeeded : bool;
  wordCount : Z;
  estimatedSpeakingRate : Z;
  participantCount : Z
}.

(** [duration ? ... : 150]: a duration of 0 is falsy. *)
Definition generateInsights (transcript : string)
    (participants : option (list string)) (duration : option Q) : Insights :=
  let wordCount := Z.of_nat (length (split_on space transcript)) in
  let speakingRate :=
    match duration with
    | Some d => if Qeq_bool d 0 then 150%Z
                else js_round (inject_Z wordCount / (d / 60))
    | None => 150%Z
    end in
  mkInsights
    (match participants with
     | Some ps => Z.min 10 (Z.of_nat (length ps) * 2)
     | None => 8%Z
     end)
    (if (160 <? speakingRate)%Z then "high"
     else if (120 <? speakingRate)%Z then "medium" else "low")
    (if includes transcript "action" || includes transcript "next steps"
     then "high" else "medium")
    (includes transcript "follow up" || includes transcript "next meeting")
    wordCount
    speakingRate
    (* [participants?.length || 2]: a length of 0 is falsy *)
    (match participants with
     | Some ps => if Nat.eqb (length ps) 0 then 2%Z else Z.of_nat (length ps)
     | None => 2%Z
     end).

(** ** Analysis Stage ([MeetingSummarizer]) *)

(** The validated event body ([config.inputSchema]). *)
Record SumInput : Type := mkSumInput {
  si_filename : string;
  si_transcriptionId : string;
  si_transcript : string;
  si_participants : option (list string);
  si_duration : option Q;
  si_whisperModel : string;
  si_timestamp : string
}.

Definition sentiment_val (s : Sentiment) : Val :=
  VObj [("overall", VStr (overall s));
        ("confidence", VNum (confidence s));
        ("positiveIndicators", num (positiveIndicators s));
        ("negativeIndicators", num (negativeIndicators s));
        ("energyLevel", VStr (energyLevel s))].

Definition insights_val (i : Insights) : Val :=
  VObj [("participationScore", num (participationScore i));
        ("engagementLevel", VStr (engagementLevel i));
        ("meetingEfficiency", VStr (meetingEfficiency i));
        ("followUpNeeded", VBool (followUpNeeded i));
        ("keyMetrics", VObj [("wordCount", num (wordCount i));
                             ("estimatedSpeakingRate", num (estimatedSpeakingRate i));
                             ("participantCount", num (participantCount i))])].

(** [Date.now() - new Date(timestamp).getTime()]; an unparsable timestamp
    gives [NaN], which is not stored. *)
Definition elapsed (t : N) (ts : string) : option Val :=
  match parse_iso ts with
  | Some t0 => Some (num (Z.of_N t - Z.of_N t0))
  | None => None
  end.

(** The handler.  It takes a single argument [context] and reads the event
    payload from [context.body] and the runtime services from
    [context.streams], [context.emit] and [context.logger]; the model takes
    the payload as [body] and the services through the monad, i.e. it
    describes the handler as its code intends to be called. *)
Definition summarizer (body : SumInput) : M unit :=
  let filename := si_filename body in
  let transcriptionId := si_transcriptionId body in
  let transcript := si_transcript body in
  let participants := si_participants body in
  let duration := si_duration body in
  try_catch
    (t0 <- now ;;
     _ <- stream_add
            (obj [("status", Some (VStr "processing"));
                  ("progress", Some (num 100));
                  ("filename", Some (VStr filename));
                  ("timestamp", Some (iso t0));
                  ("localWhisperStatus", Some (VStr "Generating intelligent summary..."));
                  ("whisperModel", Some (VStr (si_whisperModel body)))]) ;;
     let summary := generateMeetingSummary transcript in
     let actionItems := extractActionItems transcript participants in
     let keyTopics := extractKeyTopics transcript in
     let sentimentAnalysis := analyzeSentiment transcript in
     let decisions := extractDecisions transcript in
     let insights := generateInsights transcript participants duration in
     t1 <- now ;;
     t2 <- now ;;
     _ <- stream_add
            (obj [("status", Some (VStr "completed"));
                  ("progress", Some (num 100));
                  ("filename", Some (VStr filename));
                  ("transcript", Some (VStr transcript));
                  ("summary", Some (VStr summary));
                  ("actionItems", Some (strs actionItems));
                  ("keyTopics", Some (strs keyTopics));
                  ("sentimentAnalysis", Some (sentiment_val sentimentAnalysis));
                  ("decisions", Some (strs decisions));
                  ("insights", Some (insights_val insights));
                  ("participants", strs <$> participants);
                  ("duration", VNum <$> duration);
                  ("timestamp", Some (iso t1));
                  ("localWhisperStatus", Some (VStr "Summary and analysis completed!"));
                  ("whisperModel", Some (VStr (si_whisperModel body)));
                  ("processingTime", elapsed t2 (si_timestamp body))]) ;;
     t3 <- now ;;
     _ <- emit (mkEvent "summary-completed"
                  (obj [("transcriptionId", Some (VStr transcriptionId));
                        ("filename", Some (VStr filename));
                        ("summary", Some (VStr summary));
                        ("actionItems", Some (strs actionItems));
                        ("keyTopics", Some (strs keyTopics));
                        ("insights", Some (insights_val insights));
                        ("timestamp", Some (iso t3))])) ;;
     t4 <- now ;;
     emit (mkEvent "action-items-extracted"
             (obj [("transcriptionId", Some (VStr transcriptionId));
                   ("filename", Some (VStr filename));
                   ("actionItems", Some (strs actionItems));
                   ("participants", strs <$> participants);
                   ("timestamp", Some (iso t4))])))
    (fun msg =>
     t <- now ;;
     _ <- stream_add
            (obj [("status", Some (VStr "failed"));
                  ("progress", Some (num 100));
                  ("filename", Some (VStr filename));
                  ("error", Some (VStr ("Summarization failed: " ++ msg)));
                  ("timestamp", Some (iso t));
                  ("localWhisperStatus", Some (VStr "Summary generation failed"))]) ;;
     throw msg).

(** The items a run appends with [add]. *)
Definition new_added (s s' : St) : list Item := drop (length (added s)) (added s').

(** The fields the Analysis Stage derives with the Text-Analysis Engine. *)
Definition analysis_keys : list string :=
  ["summary"; "actionItems"; "keyTopics"; "sentimentAnalysis"; "decisions"; "insights"].

Definition analysis_fields (it : Item) : list (option Val) :=
  map (fun k => it !! k) analysis_keys.

Definition engine_outputs (transcript : string) (participants : option (list string))
    (duration : option Q) : list (option Val) :=
  [Some (VStr (generateMeetingSummary transcript));
   Some (strs (extractActionItems transcript participants));
   Some (strs (extractKeyTopics transcript));
   Some (sentiment_val (analyzeSentiment transcript));
   Some (strs (extractDecisions transcript));
   Some (insights_val (generateInsights transcript participants duration))].

(** The fault oracle in which exactly effect number [k] rejects. *)
Definition single_fault (k : nat) (m : string) : nat -> option string :=
  fun i => if Nat.eqb i k then Some m else None.

(** ** Concrete inputs for the examples *)

Definition st0 : St := mkSt ∅ [] [] [].

(** A run in which no effect rejects, with the clock starting at [c]. *)
Definition env_ok (c : N) : Env :=
  mkEnv (fun _ => None) (fun k => (c + N.of_nat k)%N) (fun _ => "k3j9x0a1q")
        (fun _ _ => 1234%Z).

(** A run whose effect number [k] rejects with message [m]. *)
Definition env_fault_at (k : nat) (m : string) : Env :=
  mkEnv (single_fault k m) (fun i => (1000 + N.of_nat i)%N)
        (fun _ => "k3j9x0a1q") (fun _ _ => 1234%Z).

Definition ex_transcript : string :=
  "We decided to ship Friday. John will follow up with QA.".

Definition ex_input : ProcInput :=
  mkProcInput "standup.wav" None "en" "whisper-large-v3" "trans_1000_k3j9x0a1q"
    (Some true) (Some "./scripts/transcribe_whisper.py").

Definition ex_body : SumInput :=
  mkSumInput "standup.wav" "trans_1000_k3j9x0a1q" ex_transcript (Some ["John Doe"])
    (Some 600%Q) "whisper-large-v3" "1000".

(** Status, progress and error of an item. *)
Definition failure_item_fields (it : option Item)
    : option (option string * option Q * option string) :=
  option_map (fun it => (str_field it "status", num_field it "progress",
                         str_field it "error")) it.

(** Modelled from the spec's wording: [w] occurs in [text]. *)
Definition is_substring (w text : string) : Prop :=
  exists pre suf, text = pre ++ w ++ suf.

(** Modelled from the spec's wording: the number of occurrences of [w] in
    [text]. *)
Fixpoint count_occurrences (text w : string) : nat :=
  (if String.prefix w text then 1 else 0) +
  match text with
  | EmptyString => 0
  | String _ rest => count_occurrences rest w
  end.

(** Modelled from the spec's wording: [overall] computed from the numbers of
    occurrences of the positive and negative words. *)
Definition overall_by_occurrences (transcript : string) : string :=
  let text := toLowerCase transcript in
  let p := list_sum (map (count_occurrences text) positiveWords) in
  let n := list_sum (map (count_occurrences text) negativeWords) in
  if Nat.ltb n p then "positive" else if Nat.ltb p n then "negative" else "neutral".

(** A request body carrying only a file name. *)
Definition ex_api_body : ApiBody := mkApiBody (Some "standup.wav") None None None None.

(** The character '_'. *)
Definition underscore : Ascii.ascii := Ascii.Ascii true true true true true false true false.

(** [s] contains no '_'. *)
Fixpoint no_underscore (s : string) : Prop :=
  match s with
  | EmptyString => True
  | String a s' => a <> underscore /\ no_underscore s'
  end.

(** A field of the body of a returned response. *)
Definition resp_field (r : Res Response) (k : string) : option Val :=
  match r with Ok resp => resp_body resp !! k | Thrown _ => None end.

(** ** The pipeline as a whole: event delivery *)

(** The event steps of the flow and what they subscribe to
    ([config.subscribes]); [HelloWorld] emits nothing. *)
Inductive Subscriber : Type := ProcessorSub | SummarizerSub.

#[export] Instance Subscriber_eq_dec : EqDecision Subscriber.
Proof. solve_decision. Defined.

Definition subscribers (t : string) : list Subscriber :=
  if String.eqb t "meeting-transcription" then [ProcessorSub]
  else if String.eqb t "transcription-completed" then [SummarizerSub]
  else [].

(** The system: the shared store and event log, and the deliveries still
    owed to subscribers. *)
Record Sys : Type := mkSys {
  sys_st : St;
  pending : list (Subscriber * Event)
}.

(** Each published event is owed once to each subscriber of its topic. *)
Definition enqueue (evs : list Event) : list (Subscriber * Event) :=
  flat_map (fun ev => map (fun sb => (sb, ev)) (subscribers (topic ev))) evs.

(** The work id an event carries. *)
Definition ev_id (ev : Event) : option string := str_field (data ev) "transcriptionId".

Definition is_ok {A} (r : Res A) : bool :=
  match r with Ok _ => true | Thrown _ => false end.

(** The system after a handler run with outcome [out], [rest] being the
    deliveries still owed. *)
Definition after_run {A} (y : Sys) (out : Res A * nat * St)
    (rest : list (Subscriber * Event)) : Sys :=
  mkSys (snd out) (app rest (enqueue (new_events (sys_st y) (snd out)))).

(** One step of the system: a request reaches the Ingress handler, or an
    owed delivery runs a subscriber's handler on the event.  Handler runs
    are atomic here: the events a run publishes depend on its own input and
    environment only, not on the store, so interleaving them would not
    change which events are published.  The handler receives the event's
    payload: the model lets it be any input carrying the event's
    [transcriptionId].  A delivery whose handler rejects stays owed, so it
    may be retried any number of times, or never. *)
Inductive sys_step : Sys -> Sys -> Prop :=
  | Submit (traceId : string) (b : ApiBody) (e : Env) (y : Sys) :
      sys_step y (after_run y (api_handler traceId b e 0%nat (sys_st y)) (pending y))
  | Process (traceId : string) (inp : ProcInput) (e : Env) (ev : Event)
      (pre post : list (Subscriber * Event)) (y : Sys) :
      pending y = app pre ((ProcessorSub, ev) :: post) ->
      ev_id ev = Some (pi_transcriptionId inp) ->
      sys_step y
        (after_run y (processor traceId inp e 0%nat (sys_st y))
           (if is_ok (fst (fst (processor traceId inp e 0%nat (sys_st y))))
            then app pre post else pending y))
  | Summarize (b : SumInput) (e : Env) (ev : Event)
      (pre post : list (Subscriber * Event)) (y : Sys) :
      pending y = app pre ((SummarizerSub, ev) :: post) ->
      ev_id ev = Some (si_transcriptionId b) ->
      sys_step y
        (after_run y (summarizer b e 0%nat (sys_st y))
           (if is_ok (fst (fst (summarizer b e 0%nat (sys_st y))))
            then app pre post else pending y)).

Definition sys0 : Sys := mkSys st0 [].

(** The number of published events of topic [t] for work id [x]. *)
Definition count_topic (t x : string) (evs : list Event) : nat :=
  length (filter (fun ev => topic ev = t /\ ev_id ev = Some x) evs).

(** The number of deliveries owed to [sb] for work id [x]. *)
Definition pending_for (sb : Subscriber) (x : string) (ps : list (Subscriber * Event)) : nat :=
  length (filter (fun p => p.1 = sb /\ ev_id p.2 = Some x) ps).

(** A computation only ever appends to the event log. *)
Definition appends {A} (m : M A) : Prop :=
  forall e n s, published s `prefix_of` published (snd (m e n s)).

(** The invariant of the system, per work id [x]: the deliveries owed to the
    Transcription Stage plus its [transcription-completed] and
    [transcription-failed] events never exceed the [meeting-transcription]
    events; a [summary-completed] event exists only where a
    [transcription-completed] one does; and every delivery owed to the
    Analysis Stage is a published [transcription-completed] event. *)
Definition sys_inv (y : Sys) : Prop :=
  let P := published (sys_st y) in
  (forall x, pending_for ProcessorSub x (pending y)
             + count_topic "transcription-completed" x P
             + count_topic "transcription-failed" x P
             <= count_topic "meeting-transcription" x P)%nat /\
  (forall x, 0 < count_topic "summary-completed" x P ->
             0 < count_topic "transcription-completed" x P)%nat /\
  (forall ev, (SummarizerSub, ev) ∈ pending y ->
              ev ∈ P /\ topic ev = "transcription-completed").

(** A system run: one request reaches the Ingress handler, then the
    Transcription Stage handles its event in a run whose first store write
    rejects, so it records the failure. *)
Definition ex_sys1 : Sys :=
  after_run sys0 (api_handler "trace_1" ex_api_body (env_ok 1000) 0%nat (sys_st sys0))
    (pending sys0).

Definition ex_failing_env : Env := env_fault_at 1 "whisper process exited with code 1".

Definition ex_sys2 : Sys :=
  after_run ex_sys1 (processor "trace_1" ex_input ex_failing_env 0%nat (sys_st ex_sys1))
    (if is_ok (fst (fst (processor "trace_1" ex_input ex_failing_env 0%nat (sys_st ex_sys1))))
     then app [] [] else pending ex_sys1).


(** ** Text-Analysis Engine: the fixed text of the summary template *)

(** The summary template around its variable parts. *)
Definition summary_head : string := "📋 Meeting Summary:
This ".

Definition summary_tail : string := "

🎯 Key Outcomes:
• Main discussion topics were identified and addressed
• Team collaboration and coordination points were established
• Forward-looking action items were assigned to participants

💡 Overall Assessment:
The meeting was productive with clear outcomes and next steps defined.".

(** ** The stream schema ([meeting-transcription.stream.ts], [config.schema]) *)

(** Zod checks on one JSON value. *)
Definition z_string (v : Val) : bool :=
  match v with VStr _ => true | _ => false end.
Definition z_number (v : Val) : bool :=
  match v with VNum _ => true | _ => false end.
Definition z_boolean (v : Val) : bool :=
  match v with VBool _ => true | _ => false end.
(** [z.number().min(lo).max(hi)] *)
Definition z_number_in (lo hi : Q) (v : Val) : bool :=
  match v with VNum q => Qle_bool lo q && Qle_bool q hi | _ => false end.
(** [z.enum(l)] *)
Definition z_enum (l : list string) (v : Val) : bool :=
  match v with VStr s => bool_decide (s ∈ l) | _ => false end.
(** [z.array(z.string())] *)
Definition z_string_array (v : Val) : bool :=
  match v with VArr l => forallb z_string l | _ => false end.

(** A required field, and one declared [.optional()] (absent is fine). *)
Definition z_req (f : Val -> bool) (v : option Val) : bool :=
  match v with Some v => f v | None => false end.
Definition z_opt (f : Val -> bool) (v : option Val) : bool :=
  match v with Some v => f v | None => true end.

(** Field [k] of a nested object literal. *)
Fixpoint field (fs : list (string * Val)) (k : string) : option Val :=
  match fs with
  | [] => None
  | (k', v) :: fs' => if String.eqb k' k then Some v else field fs' k
  end.

Definition z_sentiment (v : Val) : bool :=
  match v with
  | VObj fs =>
      z_req (z_enum ["positive"; "negative"; "neutral"]) (field fs "overall") &&
      z_req (z_number_in 0 1) (field fs "confidence") &&
      z_req z_number (field fs "positiveIndicators") &&
      z_req z_number (field fs "negativeIndicators") &&
      z_req (z_enum ["high"; "medium"; "low"]) (field fs "energyLevel")
  | _ => false
  end.

Definition z_key_metrics (v : Val) : bool :=
  match v with
  | VObj fs =>
      z_req z_number (field fs "wordCount") &&
      z_req z_number (field fs "estimatedSpeakingRate") &&
      z_req z_number (field fs "participantCount")
  | _ => false
  end.

Definition z_insights (v : Val) : bool :=
  match v with
  | VObj fs =>
      z_req (z_number_in 0 10) (field fs "participationScore") &&
      z_req (z_enum ["high"; "medium"; "low"]) (field fs "engagementLevel") &&
      z_req (z_enum ["high"; "medium"; "low"]) (field fs "meetingEfficiency") &&
      z_req z_boolean (field fs "followUpNeeded") &&
      z_req z_key_metrics (field fs "keyMetrics")
  | _ => false
  end.

(** An item the stream's schema accepts (unknown fields are stripped, not
    rejected). *)
Definition stream_item_ok (it : Item) : bool :=
  z_req (z_enum ["uploading"; "transcribing"; "processing"; "completed"; "failed"])
    (it !! "status") &&
  z_req (z_number_in 0 100) (it !! "progress") &&
  z_req z_string (it !! "filename") &&
  z_opt z_number (it !! "duration") &&
  z_opt z_string (it !! "transcript") &&
  z_opt z_string_array (it !! "participants") &&
  z_opt z_string (it !! "error") &&
  z_opt z_string (it !! "summary") &&
  z_opt z_string_array (it !! "actionItems") &&
  z_opt z_string_array (it !! "keyTopics") &&
  z_opt z_string_array (it !! "decisions") &&
  z_opt z_sentiment (it !! "sentimentAnalysis") &&
  z_opt z_insights (it !! "insights") &&
  z_req z_string (it !! "timestamp") &&
  z_opt z_string (it !! "localWhisperStatus") &&
  z_opt z_string (it !! "whisperModel") &&
  z_opt z_number (it !! "processingTime").

(** ** What a handler run writes to the stream *)

(** The [set] updates a run pushes: key and item, in order. *)
Definition new_sets (s s' : St) : list (string * string * Item) :=
  drop (length (set_log s)) (set_log s').

(** Every run of [m] only pushes [set] updates [(k, d)] with [Pset k d] and
    only appends items [it] with [Padd it]; a key no update may use keeps
    its item. *)
Definition writes_only {A} (Pset : string * string -> Item -> Prop)
    (Padd : Item -> Prop) (m : M A) : Prop :=
  forall e n s,
    let s' := snd (m e n s) in
    exists ws adds,
      set_log s' = app (set_log s) ws /\ added s' = app (added s) adds /\
      Forall (fun w => Pset w.1 w.2) ws /\ Forall Padd adds /\
      (forall k, (forall d, ~ Pset k d) -> set_items s' !! k = set_items s !! k).

(* ================================================================== *)
(** * Proofs *)

Arguments obj : simpl never.
Arguments iso : simpl never.
Arguments num : simpl never.

(** Symbolic execution of a handler: unfold the combinators, then split
    on whether each awaited effect rejects. *)
Ltac run_m :=
  unfold emit, stream_set, stream_add, rand_below, rand36, now, sleep,
    for_each, transcriptionSteps, try_catch, throw, bind, perform, ret; simpl;
  repeat (match goal with |- context [fault ?e ?n] => destruct (fault e n) end;
          simpl).

Ltac q_rel := vm_compute; first [reflexivity | intro; discriminate].
Ltac forall_l :=
  repeat match goal with
  | |- Forall _ (_ :: _) => constructor
  | |- Forall _ [] => constructor
  end.
Ltac sorted_q :=
  repeat match goal with
  | |- Sorted _ (_ :: _) => constructor
  | |- Sorted _ [] => constructor
  | |- HdRel _ _ (_ :: _) => constructor; q_rel
  | |- HdRel _ _ [] => constructor
  end.
Ltac new_suffix :=
  unfold new_writes, new_events; cbn [set_log published added];
  rewrite <- ?app_assoc, ?drop_app_length, ?drop_all.

(** ** Transcription Stage *)

(** Every run of the transcription handler pushes one of the update
    sequences of [transcription_runs], publishes at most one event, either
    [transcription-completed] or [transcription-failed], that event
    carries the run's [transcriptionId], and a run that rejects has
    published nothing. *)
Lemma processor_run_shape e tr inp n s :
  let '(r, _, s') := processor tr inp e n s in
  new_writes s s' ∈ transcription_runs /\
  map topic (new_events s s') ∈
    [[]; ["transcription-completed"]; ["transcription-failed"]] /\
  Forall (fun ev => str_field (data ev) "transcriptionId" =
                    Some (pi_transcriptionId inp)) (new_events s s') /\
  (is_ok r = true \/ new_events s s' = []).
Proof.
  unfold processor; run_m.
  all: new_suffix; split; [|split; [|split]];
    [apply (bool_decide_unpack _); vm_compute; reflexivity
    |apply (bool_decide_unpack _); vm_compute; reflexivity
    |forall_l; vm_compute; reflexivity
    |first [left; reflexivity | right; reflexivity]].
Qed.

Lemma transcription_runs_contract :
  Forall progress_contract transcription_runs.
Proof.
  cbv [transcription_runs]; simpl.
  forall_l; unfold progress_contract; cbv [sp]; simpl;
  (split; [first [left; reflexivity | right; reflexivity] | split; [ | split]]).
  all: try solve [forall_l; (split; [reflexivity | eexists; split; [reflexivity | lia]])].
  all: try solve [sorted_q].
  all: intros w Hw Hc; inversion Hw; subst; simpl in Hc; try discriminate;
    (split; [reflexivity | split; [lia | simpl; sorted_q]]).
Qed.

(** C1: for every run of the Transcription Stage, the progress updates it
    pushes, up to its first terminal write, start with
    [status=transcribing, progress=10]; every later checkpoint before the
    terminal write is a [transcribing] update whose progress is an integer
    strictly between 10 and 100; the progress values are strictly increasing; and
    when the first terminal write is the successful one it has
    progress 100, follows at least one intermediate checkpoint, and the
    whole sequence up to it is non-decreasing. *)
Theorem transcription_progress_monotone (e : Env) (traceId : string)
    (input : ProcInput) (s : St) :
  let '(_, _, s') := processor traceId input e 0 s in
  progress_contract (new_writes s s').
Proof.
  pose proof (processor_run_shape e traceId input 0 s) as H.
  destruct (processor traceId input e 0 s) as [[r n] s'].
  destruct H as [H _].
  pose proof transcription_runs_contract as Hc.
  rewrite Forall_forall in Hc. auto.
Qed.

(** ** Analysis Stage *)

(** Every run of the analysis handler: each [completed] item it adds
    carries exactly the engine's outputs; each [failed] item it adds has
    progress 100 and the error ["Summarization failed: " ++ m] where [m] is
    the message the handler rejects with; a run that does not succeed
    rejects, having published no event or only [summary-completed]; and
    every event it publishes is [summary-completed] or
    [action-items-extracted] and carries the input's [transcriptionId]. *)
Lemma summarizer_run_shape e body n s :
  let '(r, _, s') := summarizer body e n s in
  (forall it, it ∈ new_added s s' -> str_field it "status" = Some "completed" ->
     analysis_fields it =
     engine_outputs (si_transcript body) (si_participants body) (si_duration body)) /\
  (forall it, it ∈ new_added s s' -> str_field it "status" = Some "failed" ->
     num_field it "progress" = Some 100%Q /\
     exists m, r = Thrown m /\ str_field it "error" = Some ("Summarization failed: " ++ m)) /\
  (r = Ok tt \/ ((exists m, r = Thrown m) /\
     map topic (new_events s s') ∈ [[]; ["summary-completed"]])) /\
  Forall (fun ev => (topic ev = "summary-completed" \/ topic ev = "action-items-extracted") /\
                    str_field (data ev) "transcriptionId" = Some (si_transcriptionId body))
    (new_events s s').
Proof.
  unfold summarizer, engine_outputs; cbv zeta.
  generalize (generateMeetingSummary (si_transcript body)) as sm.
  generalize (extractActionItems (si_transcript body) (si_participants body)) as ai.
  generalize (extractKeyTopics (si_transcript body)) as kt.
  generalize (analyzeSentiment (si_transcript body)) as sa.
  generalize (extractDecisions (si_transcript body)) as dc.
  generalize (generateInsights (si_transcript body) (si_participants body)
                (si_duration body)) as ins.
  intros.
  destruct (si_participants body), (si_duration body); cbn [fmap option_fmap option_map].
  all: run_m.
  all: repeat match goal with |- context [elapsed ?a ?b] => destruct (elapsed a b) end.
  all: unfold new_added; new_suffix.
  all: split; [|split; [|split]];
    [ intros it Hit Hs; apply list_elem_of_In in Hit; simpl in Hit;
      repeat destruct Hit as [<-|Hit]; try contradiction;
      vm_compute in Hs; try discriminate; (vm_compute; reflexivity)
    | intros it Hit Hs; apply list_elem_of_In in Hit; simpl in Hit;
      repeat destruct Hit as [<-|Hit]; try contradiction;
      vm_compute in Hs; try discriminate;
      (split; [vm_compute; reflexivity
              | eexists; split; [reflexivity | vm_compute; reflexivity]])
    | first [left; reflexivity
            | right; split; [eexists; reflexivity
                            | apply (bool_decide_unpack _); vm_compute; reflexivity]]
    | cbn [app]; forall_l; cbv beta; (split; [first [left; reflexivity | right; reflexivity]
                        | vm_compute; reflexivity]) ].
Qed.

Lemma nth_elem_of_list (l : list Item) (i : nat) :
  Nat.ltb i (length l) = true -> nth i l ∅ ∈ l.
Proof.
  intros H. apply list_elem_of_In, nth_In. by apply Nat.ltb_lt.
Qed.

Lemma triple_eta {A B C} (x : A * B * C) : x = (fst (fst x), snd (fst x), snd x).
Proof. by destruct x as [[a b] c]. Qed.

(** C7: the Text-Analysis Engine is a function of the transcript, the
    participants and the duration only: two runs of the Analysis Stage on
    the same event body, whatever their clocks, random draws, failures and
    stores, write byte-identical summary, action items, topics, sentiment,
    decisions and insights in their [completed] items. *)
Theorem analysis_engine_deterministic (body : SumInput) (e1 e2 : Env) (s1 s2 : St) :
  let '(_, _, s1') := summarizer body e1 0%nat s1 in
  let '(_, _, s2') := summarizer body e2 0%nat s2 in
  forall it1 it2,
    it1 ∈ new_added s1 s1' -> str_field it1 "status" = Some "completed" ->
    it2 ∈ new_added s2 s2' -> str_field it2 "status" = Some "completed" ->
    analysis_fields it1 = analysis_fields it2.
Proof.
  pose proof (summarizer_run_shape e1 body 0%nat s1) as H1.
  pose proof (summarizer_run_shape e2 body 0%nat s2) as H2.
  destruct (summarizer body e1 0%nat s1) as [[r1 n1] s1'].
  destruct (summarizer body e2 0%nat s2) as [[r2 n2] s2'].
  intros it1 it2 Hi1 Hs1 Hi2 Hs2.
  rewrite (proj1 H1 it1 Hi1 Hs1), (proj1 H2 it2 Hi2 Hs2). reflexivity.
Qed.

Lemma analysis_engine_deterministic_witness :
  exists it1 it2,
    it1 ∈ new_added st0 (snd (summarizer ex_body (env_ok 1000) 0%nat st0)) /\
    str_field it1 "status" = Some "completed" /\
    it2 ∈ new_added st0 (snd (summarizer ex_body (env_ok 5000) 0%nat st0)) /\
    str_field it2 "status" = Some "completed" /\
    analysis_fields it1 = analysis_fields it2.
Proof.
  pose proof (analysis_engine_deterministic ex_body (env_ok 1000) (env_ok 5000) st0 st0) as H.
  rewrite (triple_eta (summarizer ex_body (env_ok 1000) 0%nat st0)),
    (triple_eta (summarizer ex_body (env_ok 5000) 0%nat st0)) in H.
  cbv beta iota in H.
  exists (nth 1 (new_added st0 (snd (summarizer ex_body (env_ok 1000) 0%nat st0))) ∅),
         (nth 1 (new_added st0 (snd (summarizer ex_body (env_ok 5000) 0%nat st0))) ∅).
  split; [apply nth_elem_of_list; vm_compute; reflexivity|].
  split; [vm_compute; reflexivity|].
  split; [apply nth_elem_of_list; vm_compute; reflexivity|].
  split; [vm_compute; reflexivity|].
  apply H; solve [apply nth_elem_of_list; vm_compute; reflexivity | vm_compute; reflexivity].
Defined.

Arguments single_fault : simpl never.

Lemma single_fault_eq k m : single_fault k m k = Some m.
Proof. unfold single_fault. by rewrite Nat.eqb_refl. Qed.

Lemma single_fault_ne k m i : i <> k -> single_fault k m i = None.
Proof. unfold single_fault. intros H. by apply Nat.eqb_neq in H as ->. Qed.

(** Symbolic execution of a handler in which exactly one effect, at an
    unknown position [k], rejects. *)
Ltac run_single :=
  unfold emit, stream_set, stream_add, rand_below, rand36, now, sleep,
    for_each, transcriptionSteps, try_catch, throw, bind, perform, ret; simpl;
  repeat (first
    [ match goal with |- context [single_fault ?k ?m ?i] =>
        is_var k; destruct (Nat.eqb_spec i k) as [<-|Hne];
        [rewrite single_fault_eq | rewrite (single_fault_ne _ _ _ Hne); clear Hne] end
    | progress cbv [single_fault] ]; simpl).

(** When exactly one effect of the analysis handler rejects and the run
    fails, the handler rejects with that message and its last added item is
    the failure item. *)
Lemma summarizer_single_fault body k m c r36 rb s :
  let '(r, _, s') := summarizer body (mkEnv (single_fault k m) c r36 rb) 0%nat s in
  r <> Ok tt ->
  r = Thrown m /\
  failure_item_fields (last (new_added s s')) =
    Some (Some "failed", Some 100%Q, Some ("Summarization failed: " ++ m)).
Proof.
  unfold summarizer; cbv zeta.
  generalize (generateMeetingSummary (si_transcript body)) as sm.
  generalize (extractActionItems (si_transcript body) (si_participants body)) as ai.
  generalize (extractKeyTopics (si_transcript body)) as kt.
  generalize (analyzeSentiment (si_transcript body)) as sa.
  generalize (extractDecisions (si_transcript body)) as dc.
  generalize (generateInsights (si_transcript body) (si_participants body)
                (si_duration body)) as ins.
  intros.
  destruct (si_participants body), (si_duration body); cbn [fmap option_fmap option_map].
  all: run_single.
  all: intros Hr; try (exfalso; apply Hr; reflexivity).
  all: unfold new_added; new_suffix.
  all: split; [reflexivity|].
  all: (vm_compute; reflexivity).
Qed.

(** Which effects of the analysis handler decide its outcome: counting
    from 0, effect 1 is the [processing] write, 4 the [completed] write,
    6 the [summary-completed] emit and 8 the [action-items-extracted] emit
    (the others read the clock).  The run succeeds exactly when none of the
    four rejects, and the topics it publishes follow from which one rejects
    first. *)
Lemma summarizer_fault_outcome body e s :
  let '(r, _, s') := summarizer body e 0%nat s in
  (r = Ok tt <->
   fault e 1 = None /\ fault e 4 = None /\ fault e 6 = None /\ fault e 8 = None) /\
  map topic (new_events s s') =
    match fault e 1, fault e 4, fault e 6, fault e 8 with
    | None, None, None, None => ["summary-completed"; "action-items-extracted"]
    | None, None, None, Some _ => ["summary-completed"]
    | _, _, _, _ => []
    end.
Proof.
  unfold summarizer; cbv zeta.
  generalize (generateMeetingSummary (si_transcript body)) as sm.
  generalize (extractActionItems (si_transcript body) (si_participants body)) as ai.
  generalize (extractKeyTopics (si_transcript body)) as kt.
  generalize (analyzeSentiment (si_transcript body)) as sa.
  generalize (extractDecisions (si_transcript body)) as dc.
  generalize (generateInsights (si_transcript body) (si_participants body)
                (si_duration body)) as ins.
  intros.
  destruct (si_participants body), (si_duration body); cbn [fmap option_fmap option_map].
  all: run_m.
  all: repeat match goal with |- context [elapsed ?a ?b] => destruct (elapsed a b) end.
  all: new_suffix.
  all: split; [split; [intros H; first [discriminate | repeat split] | intros (H1 & H2 & H3 & H4); try discriminate; try reflexivity] | reflexivity].
Qed.

(** C6 (counterexample): when the Analysis Stage's first stream write
    rejects, the handler re-throws the fault and its failure write carries
    ["Summarization failed: ..."], not ["analysis failed: ..."]; and when
    the [action-items-extracted] emit rejects, [summary-completed] has
    already been published. *)
Lemma analysis_fault_rethrown_cex :
  fst (fst (summarizer ex_body (env_fault_at 1 "store unavailable") 0%nat st0))
    = Thrown "store unavailable" /\
  map (fun it => str_field it "error")
      (added (snd (summarizer ex_body (env_fault_at 1 "store unavailable") 0%nat st0)))
    = [Some "Summarization failed: store unavailable"] /\
  map topic (published (snd (summarizer ex_body (env_fault_at 8 "bus unavailable") 0%nat st0)))
    = ["summary-completed"].
Proof. vm_compute. split; [reflexivity | split; reflexivity]. Qed.

(** C6 (amended): a run of the Analysis Stage succeeds exactly when none of
    its four effects that can reject does: the [processing] write, the
    [completed] write, the [summary-completed] emit and the
    [action-items-extracted] emit (effects 1, 4, 6 and 8 of the run).  When
    one of them rejects, the handler rejects too (the fault is re-thrown
    out of the handler, not contained): the run publishes
    [summary-completed] only when the fault came from the
    [action-items-extracted] emit, and publishes nothing otherwise.  Every
    [failed] item it writes has progress 100 and error
    ["Summarization failed: " ++ m] for the message [m] it rejects with.
    When exactly one of these four effects rejects, with message [m], the
    run rejects with [m] and its last write is that failure item. *)
Theorem analysis_fault_contract (body : SumInput) (e : Env) (s : St) :
  (let '(r, _, s') := summarizer body e 0%nat s in
   (r = Ok tt <->
    fault e 1 = None /\ fault e 4 = None /\ fault e 6 = None /\ fault e 8 = None) /\
   map topic (new_events s s') =
     match fault e 1, fault e 4, fault e 6, fault e 8 with
     | None, None, None, None => ["summary-completed"; "action-items-extracted"]
     | None, None, None, Some _ => ["summary-completed"]
     | _, _, _, _ => []
     end /\
   (r <> Ok tt -> exists m, r = Thrown m) /\
   (forall it, it ∈ new_added s s' -> str_field it "status" = Some "failed" ->
      num_field it "progress" = Some 100%Q /\
      exists m, r = Thrown m /\ str_field it "error" = Some ("Summarization failed: " ++ m))) /\
  (forall k m, k ∈ [1; 4; 6; 8]%nat ->
   let '(r, _, s') :=
     summarizer body (mkEnv (single_fault k m) (clock e) (random36 e) (random_below e)) 0%nat s in
   r = Thrown m /\
   failure_item_fields (last (new_added s s')) =
     Some (Some "failed", Some 100%Q, Some ("Summarization failed: " ++ m))).
Proof.
  split.
  - pose proof (summarizer_run_shape e body 0%nat s) as H.
    pose proof (summarizer_fault_outcome body e s) as Ho.
    destruct (summarizer body e 0%nat s) as [[r n] s'].
    destruct H as (_ & Hf & Hr & _). destruct Ho as [Hiff Ht].
    split; [exact Hiff|]. split; [exact Ht|]. split; [|exact Hf].
    intros Hok. destruct Hr as [-> | [Hm _]]; [contradiction | exact Hm].
  - intros k m Hk.
    pose proof (summarizer_single_fault body k m (clock e) (random36 e) (random_below e) s) as H.
    pose proof (summarizer_fault_outcome body
                  (mkEnv (single_fault k m) (clock e) (random36 e) (random_below e)) s) as Ho.
    destruct (summarizer body _ 0%nat s) as [[r n] s'].
    destruct Ho as [Hiff _]. apply H. intros ->.
    destruct (proj1 Hiff eq_refl) as (H1 & H4 & H6 & H8). cbn [fault] in *.
    repeat (apply elem_of_cons in Hk as [->|Hk];
            [rewrite single_fault_eq in *; discriminate|]).
    by apply elem_of_nil in Hk.
Qed.

Lemma analysis_fault_contract_witness :
  (1 ∈ [1; 4; 6; 8])%nat /\
  fst (fst (summarizer ex_body (env_fault_at 1 "store unavailable") 0%nat st0))
    = Thrown "store unavailable" /\
  failure_item_fields
    (last (new_added st0 (snd (summarizer ex_body (env_fault_at 1 "store unavailable") 0%nat st0))))
  = Some (Some "failed", Some 100%Q, Some ("Summarization failed: " ++ "store unavailable")).
Proof.
  assert (Hk : (1 ∈ [1; 4; 6; 8])%nat) by (apply elem_of_cons; by left).
  pose proof (proj2 (analysis_fault_contract ex_body (env_fault_at 1 "store unavailable") st0)
                1%nat "store unavailable" Hk) as H.
  change (mkEnv (single_fault 1 "store unavailable")
            (clock (env_fault_at 1 "store unavailable"))
            (random36 (env_fault_at 1 "store unavailable"))
            (random_below (env_fault_at 1 "store unavailable")))
    with (env_fault_at 1 "store unavailable") in H.
  rewrite (triple_eta (summarizer ex_body (env_fault_at 1 "store unavailable") 0%nat st0)) in H.
  cbv beta iota in H.
  split; [exact Hk | exact H].
Defined.

Lemma transcription_runs_fail_zero :
  Forall (Forall (fun w : option string * option Q =>
            fst w = Some "failed" -> snd w = Some 0%Q)) transcription_runs.
Proof.
  cbv [transcription_runs]; simpl.
  forall_l; cbv [sp failure_write transcription_schedule]; simpl; forall_l;
  simpl; intros Hw; solve [discriminate | reflexivity].
Qed.

(** C10: every item with status [failed] that the Analysis Stage writes
    carries progress 100, while every [failed] write of the Transcription
    Stage carries progress 0; so a [failed] record may carry progress 100. *)
Theorem failed_progress_by_stage (body : SumInput) (e : Env) (s : St)
    (traceId : string) (input : ProcInput) (e' : Env) (t : St) :
  (let '(_, _, s') := summarizer body e 0%nat s in
   forall it, it ∈ new_added s s' -> str_field it "status" = Some "failed" ->
     num_field it "progress" = Some 100%Q) /\
  (let '(_, _, t') := processor traceId input e' 0%nat t in
   forall w, w ∈ new_writes t t' -> fst w = Some "failed" -> snd w = Some 0%Q).
Proof.
  split.
  - pose proof (summarizer_run_shape e body 0%nat s) as H.
    destruct (summarizer body e 0%nat s) as [[r n] s'].
    intros it Hin Hst. apply (proj1 (proj2 H) it Hin Hst).
  - pose proof (processor_run_shape e' traceId input 0%nat t) as H.
    destruct (processor traceId input e' 0%nat t) as [[r n] t'].
    destruct H as [Hr _].
    pose proof transcription_runs_fail_zero as Hz.
    rewrite Forall_forall in Hz.
    specialize (Hz _ Hr). rewrite Forall_forall in Hz. exact Hz.
Qed.

Lemma failed_progress_by_stage_witness :
  exists it, it ∈ new_added st0 (snd (summarizer ex_body (env_fault_at 1 "store unavailable") 0%nat st0)) /\
    str_field it "status" = Some "failed" /\ num_field it "progress" = Some 100%Q.
Proof.
  pose proof (failed_progress_by_stage ex_body (env_fault_at 1 "store unavailable") st0
                "trace_1" ex_input (env_ok 1000) st0) as [H _].
  rewrite (triple_eta (summarizer ex_body (env_fault_at 1 "store unavailable") 0%nat st0)) in H.
  cbv beta iota in H.
  exists (nth 0 (new_added st0 (snd (summarizer ex_body (env_fault_at 1 "store unavailable") 0%nat st0))) ∅).
  split; [apply nth_elem_of_list; vm_compute; reflexivity|].
  split; [vm_compute; reflexivity|].
  apply H; solve [apply nth_elem_of_list; vm_compute; reflexivity | vm_compute; reflexivity].
Defined.

Lemma prefix_spec (sub s : string) :
  String.prefix sub s = true <-> exists suf, s = sub ++ suf.
Proof.
  revert s; induction sub as [|a sub IH]; intros s; simpl.
  - destruct s; split; eauto.
  - destruct s as [|b s].
    + split; [discriminate | intros [suf H]; discriminate].
    + simpl. destruct (Ascii.ascii_dec a b) as [->|Hab].
      * rewrite IH. split; intros [suf H]; exists suf; [by rewrite H | by injection H].
      * split; [discriminate | intros [suf H]; injection H; congruence].
Qed.

Lemma includes_spec (s sub : string) :
  includes s sub = true <-> is_substring sub s.
Proof.
  unfold is_substring. induction s as [|a s IH]; cbn [includes].
  - rewrite orb_false_r, prefix_spec. split.
    + intros [suf H]. exists "", suf. done.
    + intros [pre [suf H]]. destruct pre; [by exists suf|discriminate].
  - rewrite orb_true_iff, prefix_spec, IH. split.
    + intros [[suf H]|[pre [suf H]]].
      * exists "", suf. done.
      * exists (String a pre), suf. by rewrite H.
    + intros [pre [suf H]]. destruct pre as [|b pre].
      * left. by exists suf.
      * right. injection H as _ H. by exists pre, suf.
Qed.

#[export] Instance is_substring_dec w text : Decision (is_substring w text).
Proof.
  destruct (includes text w) eqn:E; [left | right];
    rewrite <- includes_spec; [done | by rewrite E].
Defined.

(** C8 (counterexample): the code counts how many of the listed words occur
    in the lowercased text, each word at most once, not the occurrences:
    on "great great problem issue" it reports [negative] (one positive word,
    two negative words), where counting occurrences gives two against two,
    i.e. [neutral]. *)
Lemma sentiment_counts_words_cex :
  overall (analyzeSentiment "great great problem issue") = "negative" /\
  overall_by_occurrences "great great problem issue" = "neutral".
Proof. split; vm_compute; reflexivity. Qed.


Lemma filter_includes (text : string) (ws : list string) :
  filter (fun w => is_substring w text) ws = filter (fun w => includes text w) ws.
Proof.
  apply list_filter_iff. intros w. by rewrite Is_true_true, includes_spec.
Qed.

(** C8 (amended): [positiveIndicators] and [negativeIndicators] are the
    numbers of words of the fixed positive and negative lists that occur
    (as substrings) in the lowercased transcript, each word counted once,
    so each lies in [0, 9]; [overall] is [positive] when the positive count
    strictly exceeds the negative one, [negative] in the converse case and
    [neutral] otherwise; [confidence] is min(0.95, 0.6 + |p - n| * 0.1),
    computed here in exact rational arithmetic; [energyLevel] is [high] iff
    the lowercased text contains "excited" or "enthusiastic". *)
Theorem sentiment_contract (transcript : string) :
  let text := toLowerCase transcript in
  let a := analyzeSentiment transcript in
  let p := Z.of_nat (length (filter (fun w => is_substring w text) positiveWords)) in
  let n := Z.of_nat (length (filter (fun w => is_substring w text) negativeWords)) in
  positiveIndicators a = p /\ negativeIndicators a = n /\
  (0 <= p <= 9 /\ 0 <= n <= 9)%Z /\
  overall a = (if (n <? p)%Z then "positive" else if (p <? n)%Z then "negative" else "neutral") /\
  confidence a = Qmin (95 # 100) ((6 # 10) + inject_Z (Z.abs (p - n)) * (1 # 10)) /\
  energyLevel a =
    (if bool_decide (is_substring "excited" text \/ is_substring "enthusiastic" text)
     then "high" else "medium").
Proof.
  cbv zeta. rewrite !filter_includes.
  pose proof (length_filter (fun w => includes (toLowerCase transcript) w) positiveWords) as Hp.
  pose proof (length_filter (fun w => includes (toLowerCase transcript) w) negativeWords) as Hn.
  cbn [length positiveWords negativeWords] in Hp, Hn.
  unfold analyzeSentiment; cbn [positiveIndicators negativeIndicators overall confidence energyLevel].
  do 5 (split; [try reflexivity; lia|]).
  case_bool_decide as H.
  - destruct H as [H|H]; apply includes_spec in H; rewrite H;
      [reflexivity | rewrite orb_true_r; reflexivity].
  - destruct (includes _ "excited") eqn:E1;
      [exfalso; apply H; left; by apply includes_spec|].
    destruct (includes _ "enthusiastic") eqn:E2;
      [exfalso; apply H; right; by apply includes_spec|].
    reflexivity.
Qed.

(** C9 (code bug): with participants absent ([undefined]) the
    participation score is the default 8, but with a participant list that
    is present and empty (zero participants) it is [min(10, 0 * 2) = 0],
    while the participant count falls back to 2 ([[].length] is falsy).
    When the duration is unknown or 0 the speaking rate is the default 150.
    No input makes insight generation fail: it is a total function. *)
Theorem insights_defaults (transcript : string) (duration : option Q) :
  participationScore (generateInsights transcript None duration) = 8%Z /\
  participantCount (generateInsights transcript None duration) = 2%Z /\
  participationScore (generateInsights transcript (Some []) duration) = 0%Z /\
  participantCount (generateInsights transcript (Some []) duration) = 2%Z /\
  (match duration with None => True | Some d => (d == 0)%Q end ->
   estimatedSpeakingRate (generateInsights transcript None duration) = 150%Z /\
   estimatedSpeakingRate (generateInsights transcript (Some []) duration) = 150%Z).
Proof.
  split; [reflexivity|]. split; [reflexivity|]. split; [reflexivity|]. split; [reflexivity|].
  intros Hd. destruct duration as [d|]; unfold generateInsights; cbn.
  - apply Qeq_bool_iff in Hd. rewrite Hd. split; reflexivity.
  - split; reflexivity.
Qed.

Lemma insights_defaults_witness :
  participationScore (generateInsights "Quick sync on the release" (Some []) None) = 0%Z /\
  estimatedSpeakingRate (generateInsights "Quick sync on the release" (Some []) None) = 150%Z.
Proof.
  pose proof (insights_defaults "Quick sync on the release" None) as H.
  split; [apply H | apply (proj2 (proj2 (proj2 (proj2 H))) I)].
Defined.
(** C3: when the request's [filename] is missing or empty, the Ingress
    handler returns status 400 with error "Missing required field: filename",
    performs no effect and leaves the store unchanged (no record created, no
    event published). *)
Theorem ingress_rejects_missing_filename (traceId : string) (b : ApiBody)
    (e : Env) (n : nat) (s : St) :
  falsy (ab_filename b) = true ->
  api_handler traceId b e n s =
    (Ok (mkResponse 400
           (obj [("error", Some (VStr "Missing required field: filename"));
                 ("details", Some (VStr "The filename field is required for transcription"))])),
     n, s).
Proof.
  intros H. unfold api_handler, try_catch. rewrite H. reflexivity.
Qed.

Lemma ingress_rejects_missing_filename_witness :
  falsy (ab_filename (mkApiBody None None None None None)) = true /\
  fst (fst (api_handler "trace_1" (mkApiBody None None None None None) (env_ok 1000) 0%nat st0))
  = Ok (mkResponse 400
           (obj [("error", Some (VStr "Missing required field: filename"));
                 ("details", Some (VStr "The filename field is required for transcription"))])).
Proof.
  split; [reflexivity|].
  rewrite (ingress_rejects_missing_filename "trace_1" (mkApiBody None None None None None) (env_ok 1000) 0%nat st0 eq_refl).
  reflexivity.
Defined.

(** C4 (code): for a request with a non-empty [filename] whose effects all
    succeed, the handler returns status 200 and the [status] field of the
    body is "uploading", taken from the spread stream item, not
    "processing". *)
Theorem ingress_response_status_uploading (traceId : string) (b : ApiBody) (e : Env) (s : St) :
  falsy (ab_filename b) = false ->
  (forall i, fault e i = None) ->
  exists resp, fst (fst (api_handler traceId b e 0%nat s)) = Ok resp /\
    resp_status resp = 200%Z /\
    resp_body resp !! "status" = Some (VStr "uploading").
Proof.
  intros Hb Hf.
  unfold api_handler, try_catch. rewrite Hb.
  unfold bind, now, rand36, stream_set, emit, perform, ret. simpl.
  rewrite !Hf. simpl.
  destruct (ab_filename b) as [f|]; [|discriminate].
  eexists; split; [reflexivity|]. split; [reflexivity|]. cbn [resp_body].
  apply lookup_union_Some_l, lookup_union_Some_l.
  destruct (ab_model b); reflexivity.
Qed.

Lemma no_underscore_uint (d : Decimal.uint) : no_underscore (NilEmpty.string_of_uint d).
Proof. induction d; simpl; try split; try discriminate; assumption. Qed.

Lemma split_at_underscore (d1 d2 r1 r2 : string) :
  no_underscore d1 -> no_underscore d2 ->
  d1 ++ String underscore r1 = d2 ++ String underscore r2 -> d1 = d2 /\ r1 = r2.
Proof.
  revert d2. induction d1 as [|a d1 IH]; intros [|b d2]; simpl.
  - intros _ _ H. by injection H.
  - intros _ [Hb _] H. injection H as Hab _. congruence.
  - intros [Ha _] _ H. injection H as Hab _. congruence.
  - intros [_ H1] [_ H2] H. injection H as -> H.
    destruct (IH d2 H1 H2 H) as [-> ->]. done.
Qed.

Lemma string_of_N_inj (t1 t2 : N) : string_of_N t1 = string_of_N t2 -> t1 = t2.
Proof.
  unfold string_of_N. intros H.
  apply (f_equal NilEmpty.uint_of_string) in H. rewrite !NilEmpty.usu in H.
  injection H as H. by apply DecimalN.Unsigned.to_uint_inj.
Qed.

Lemma transcription_id_inj (t1 t2 : N) (r1 r2 : string) :
  transcription_id t1 r1 = transcription_id t2 r2 -> t1 = t2 /\ r1 = r2.
Proof.
  unfold transcription_id. simpl. intros H.
  injection H as H.
  destruct (split_at_underscore _ _ _ _ (no_underscore_uint _) (no_underscore_uint _) H)
    as [Ht Hr].
  split; [by apply string_of_N_inj | done].
Qed.

(** C5 (counterexample): two requests served at the same clock reading with
    the same random draw receive the same id. *)
Lemma ingress_id_collision_cex :
  let '(r1, _, s1) := api_handler "trace_1" ex_api_body (env_ok 1000) 0%nat st0 in
  let '(r2, _, _) := api_handler "trace_2" ex_api_body (env_ok 1000) 0%nat s1 in
  resp_field r1 "transcriptionId" = Some (VStr "trans_1000_k3j9x0a1q") /\
  resp_field r2 "transcriptionId" = Some (VStr "trans_1000_k3j9x0a1q").
Proof. vm_compute. split; reflexivity. Qed.

(** C5 (amended): the id [trans_<Date.now()>_<random>] is injective in the
    clock reading and the random suffix, so ids of two calls differ whenever
    either differs; after a call answered with status 200, the store holds
    the record at [(traceId, id)] with status [uploading] and progress 0,
    and when that key was unused the response carries [id] as its
    [transcriptionId]. *)
Theorem ingress_id_and_record (traceId : string) (b : ApiBody) (e : Env) (s : St) :
  (forall t1 t2 r1 r2, transcription_id t1 r1 = transcription_id t2 r2 -> t1 = t2 /\ r1 = r2) /\
  let id := transcription_id (clock e 0) (random36 e 1) in
  let '(r, _, s') := api_handler traceId b e 0%nat s in
  forall resp, r = Ok resp -> resp_status resp = 200%Z ->
    (set_items s !! (traceId, id) = None ->
     resp_body resp !! "transcriptionId" = Some (VStr id)) /\
    exists it, set_items s' !! (traceId, id) = Some it /\
      it !! "status" = Some (VStr "uploading") /\ it !! "progress" = Some (num 0).
Proof.
  split; [exact transcription_id_inj|]. cbv zeta.
  unfold api_handler, try_catch.
  destruct (falsy (ab_filename b)) eqn:Hb.
  { cbn. intros resp [= <-]. discriminate. }
  unfold bind, now, rand36, stream_set, emit, perform, ret. simpl.
  destruct (fault e 3) as [m|]; simpl.
  { intros resp [= <-]. discriminate. }
  destruct (fault e 4) as [m|]; simpl.
  { intros resp [= <-]. discriminate. }
  intros resp [= <-] _. cbn [resp_body]. split.
  - intros Hfresh. rewrite Hfresh. cbn [default].
    destruct (ab_filename b), (ab_model b); reflexivity.
  - eexists. split; [apply lookup_insert_eq|].
    split; apply lookup_union_Some_l; destruct (ab_filename b), (ab_model b); reflexivity.
Qed.

Lemma ingress_id_and_record_witness :
  exists resp,
    fst (fst (api_handler "trace_1" ex_api_body (env_ok 1000) 0%nat st0)) = Ok resp /\
    resp_status resp = 200%Z /\
    resp_body resp !! "transcriptionId" = Some (VStr "trans_1000_k3j9x0a1q") /\
    exists it,
      set_items (snd (api_handler "trace_1" ex_api_body (env_ok 1000) 0%nat st0))
        !! ("trace_1", "trans_1000_k3j9x0a1q") = Some it /\
      it !! "status" = Some (VStr "uploading").
Proof.
  pose proof (proj2 (ingress_id_and_record "trace_1" ex_api_body (env_ok 1000) st0)) as H.
  cbv zeta in H.
  rewrite (triple_eta (api_handler "trace_1" ex_api_body (env_ok 1000) 0%nat st0)) in H.
  cbv beta iota in H.
  destruct (fst (fst (api_handler "trace_1" ex_api_body (env_ok 1000) 0%nat st0)))
    as [resp|m] eqn:Er; [|vm_compute in Er; discriminate].
  assert (Hs : resp_status resp = 200%Z) by (vm_compute in Er; injection Er as <-; reflexivity).
  destruct (H resp eq_refl Hs) as [Hid [it [Hit [Hst _]]]].
  exists resp. split; [reflexivity|]. split; [exact Hs|].
  split; [apply Hid; reflexivity|].
  exists it. split; [exact Hit | exact Hst].
Defined.

Lemma ingress_response_status_uploading_witness :
  falsy (ab_filename ex_api_body) = false /\
  exists resp, fst (fst (api_handler "trace_1" ex_api_body (env_ok 1000) 0%nat st0)) = Ok resp /\
    resp_status resp = 200%Z /\
    resp_body resp !! "status" = Some (VStr "uploading").
Proof.
  split; [reflexivity|].
  exact (ingress_response_status_uploading "trace_1" ex_api_body (env_ok 1000) st0
           eq_refl (fun _ => eq_refl)).
Defined.

(** ** The pipeline as a whole *)

(** Event logs only grow. *)

Lemma ret_appends {A} (a : A) : appends (ret a).
Proof. intros e n s. reflexivity. Qed.

Lemma throw_appends {A} (m : string) : appends (@throw A m).
Proof. intros e n s. reflexivity. Qed.

Lemma bind_appends {A B} (m : M A) (k : A -> M B) :
  appends m -> (forall a, appends (k a)) -> appends (bind m k).
Proof.
  intros Hm Hk e n s. unfold bind. specialize (Hm e n s).
  destruct (m e n s) as [[[a|msg] n'] s'];
    [etransitivity; [exact Hm | apply Hk] | exact Hm].
Qed.

Lemma try_catch_appends {A} (m : M A) (h : string -> M A) :
  appends m -> (forall msg, appends (h msg)) -> appends (try_catch m h).
Proof.
  intros Hm Hh e n s. unfold try_catch. specialize (Hm e n s).
  destruct (m e n s) as [[[a|msg] n'] s'];
    [exact Hm | etransitivity; [exact Hm | apply Hh]].
Qed.

Lemma perform_appends {A} (f : St -> A * St) :
  (forall s, published s `prefix_of` published (snd (f s))) -> appends (perform f).
Proof.
  intros Hf e n s. unfold perform.
  destruct (fault e n); [reflexivity|].
  specialize (Hf s). destruct (f s). exact Hf.
Qed.

Lemma now_appends : appends now.
Proof. intros e n s. reflexivity. Qed.

Lemma rand36_appends : appends rand36.
Proof. intros e n s. reflexivity. Qed.

Lemma rand_below_appends k : appends (rand_below k).
Proof. intros e n s. reflexivity. Qed.

Lemma stream_set_appends g i d : appends (stream_set g i d).
Proof. apply perform_appends. intros s. reflexivity. Qed.

Lemma stream_add_appends d : appends (stream_add d).
Proof. apply perform_appends. intros s. reflexivity. Qed.

Lemma emit_appends ev : appends (emit ev).
Proof. apply perform_appends. intros s. by apply prefix_app_r. Qed.

Lemma for_each_appends {A} (l : list A) (f : A -> M unit) :
  (forall a, appends (f a)) -> appends (for_each l f).
Proof.
  intros Hf. induction l as [|a l IH]; simpl.
  - apply ret_appends.
  - apply bind_appends; [apply Hf | intros; exact IH].
Qed.

Ltac appends_tac :=
  repeat (intros; match goal with
  | |- appends (bind _ _) => apply bind_appends
  | |- appends (try_catch _ _) => apply try_catch_appends
  | |- appends (ret _) => apply ret_appends
  | |- appends (throw _) => apply throw_appends
  | |- appends now => apply now_appends
  | |- appends rand36 => apply rand36_appends
  | |- appends (rand_below _) => apply rand_below_appends
  | |- appends sleep => apply ret_appends
  | |- appends (stream_set _ _ _) => apply stream_set_appends
  | |- appends (stream_add _) => apply stream_add_appends
  | |- appends (emit _) => apply emit_appends
  | |- appends (for_each _ _) => apply for_each_appends
  | |- appends (if ?b then _ else _) => destruct b
  | |- appends (match ?x with _ => _ end) => destruct x
  end).

Lemma api_handler_appends traceId b : appends (api_handler traceId b).
Proof. unfold api_handler; cbv zeta; appends_tac. Qed.

Lemma processor_appends traceId inp : appends (processor traceId inp).
Proof. unfold processor; cbv zeta; appends_tac. Qed.

Lemma summarizer_appends b : appends (summarizer b).
Proof. unfold summarizer; cbv zeta; appends_tac. Qed.

Lemma new_events_app s s' :
  published s `prefix_of` published s' ->
  published s' = app (published s) (new_events s s').
Proof. intros [l Hl]. unfold new_events. by rewrite Hl, drop_app_length. Qed.

(** The events each handler run publishes. *)
Lemma api_events traceId b e n s :
  let '(_, _, s') := api_handler traceId b e n s in
  Forall (fun ev => topic ev = "meeting-transcription") (new_events s s').
Proof.
  unfold api_handler; cbv zeta. destruct (falsy (ab_filename b)); run_m.
  all: new_suffix; forall_l; reflexivity.
Qed.

Lemma processor_events traceId inp e n s :
  let '(r, _, s') := processor traceId inp e n s in
  (new_events s s' = [] \/
   exists ev, new_events s s' = [ev] /\
     (topic ev = "transcription-completed" \/ topic ev = "transcription-failed") /\
     ev_id ev = Some (pi_transcriptionId inp)) /\
  (is_ok r = true \/ new_events s s' = []).
Proof.
  pose proof (processor_run_shape e traceId inp n s) as H.
  destruct (processor traceId inp e n s) as [[r k] s'].
  destruct H as (_ & Ht & Hid & Hok). split; [|exact Hok].
  destruct (new_events s s') as [|ev [|ev2 evs]]; [by left | right; exists ev | exfalso].
  - apply Forall_cons in Hid as [Hid _].
    split; [done | split; [|exact Hid]].
    apply list_elem_of_In in Ht. simpl in Ht.
    destruct Ht as [Ht|[Ht|[Ht|[]]]]; [discriminate | left | right]; congruence.
  - apply list_elem_of_In in Ht. simpl in Ht.
    destruct Ht as [Ht|[Ht|[Ht|[]]]]; discriminate.
Qed.

Lemma summarizer_events b e n s :
  let '(_, _, s') := summarizer b e n s in
  Forall (fun ev => (topic ev = "summary-completed" \/ topic ev = "action-items-extracted") /\
                    ev_id ev = Some (si_transcriptionId b)) (new_events s s').
Proof.
  pose proof (summarizer_run_shape e b n s) as H.
  destruct (summarizer b e n s) as [[r k] s'].
  destruct H as (_ & _ & _ & H). exact H.
Qed.

Lemma count_topic_app t x l1 l2 :
  count_topic t x (app l1 l2) = (count_topic t x l1 + count_topic t x l2)%nat.
Proof. unfold count_topic. by rewrite filter_app, length_app. Qed.

Lemma pending_for_app sb x l1 l2 :
  pending_for sb x (app l1 l2) = (pending_for sb x l1 + pending_for sb x l2)%nat.
Proof. unfold pending_for. by rewrite filter_app, length_app. Qed.

Lemma pending_for_cons sb x p l :
  pending_for sb x (p :: l) =
    ((if bool_decide (p.1 = sb /\ ev_id p.2 = Some x) then 1 else 0) + pending_for sb x l)%nat.
Proof.
  unfold pending_for. rewrite filter_cons. case_decide as H.
  - by rewrite bool_decide_eq_true_2.
  - by rewrite bool_decide_eq_false_2.
Qed.

Lemma count_topic_cons t x ev l :
  count_topic t x (ev :: l) =
    ((if bool_decide (topic ev = t /\ ev_id ev = Some x) then 1 else 0) + count_topic t x l)%nat.
Proof.
  unfold count_topic. rewrite filter_cons. case_decide as H.
  - by rewrite bool_decide_eq_true_2.
  - by rewrite bool_decide_eq_false_2.
Qed.

Lemma enqueue_app l1 l2 : enqueue (app l1 l2) = app (enqueue l1) (enqueue l2).
Proof. unfold enqueue. apply flat_map_app. Qed.

Lemma count_topic_other t x evs :
  Forall (fun ev => topic ev <> t) evs -> count_topic t x evs = 0%nat.
Proof.
  induction 1 as [|ev evs Hne _ IH]; [done|].
  rewrite count_topic_cons, IH. case_bool_decide as Hc; [|done]. by destruct Hc.
Qed.

Lemma enqueue_silent evs :
  Forall (fun ev => topic ev <> "meeting-transcription" /\
                    topic ev <> "transcription-completed") evs ->
  enqueue evs = [].
Proof.
  induction 1 as [|ev evs [H1 H2] _ IH]; [done|].
  unfold enqueue in *; simpl. rewrite IH.
  unfold subscribers. apply String.eqb_neq in H1, H2. by rewrite H1, H2.
Qed.

Lemma count_pos t x evs ev :
  ev ∈ evs -> topic ev = t -> ev_id ev = Some x -> (0 < count_topic t x evs)%nat.
Proof.
  intros Hin Ht Hx. unfold count_topic.
  assert (Hf : ev ∈ filter (fun ev => topic ev = t /\ ev_id ev = Some x) evs)
    by (apply list_elem_of_filter; auto).
  destruct (filter _ evs); [by apply elem_of_nil in Hf | simpl; lia].
Qed.

Lemma count_pos_inv t x evs :
  (0 < count_topic t x evs)%nat -> exists ev, ev ∈ evs /\ topic ev = t /\ ev_id ev = Some x.
Proof.
  unfold count_topic. intros H.
  destruct (filter _ evs) as [|ev l] eqn:E; [simpl in H; lia|].
  assert (Hf : ev ∈ filter (fun ev => topic ev = t /\ ev_id ev = Some x) evs)
    by (rewrite E; apply elem_of_cons; left; reflexivity).
  apply list_elem_of_filter in Hf as [[Ht Hx] Hin]. eauto.
Qed.

Ltac bd_solve :=
  repeat case_bool_decide; simpl in *;
  intuition (first [congruence | lia | idtac]).

Lemma enqueue_all_mt evs :
  Forall (fun ev => topic ev = "meeting-transcription") evs ->
  enqueue evs = map (fun ev => (ProcessorSub, ev)) evs.
Proof.
  induction 1 as [|ev evs Ht _ IH]; [done|].
  unfold enqueue in *; simpl. rewrite IH, Ht. reflexivity.
Qed.

Lemma pending_for_all_mt x evs :
  Forall (fun ev => topic ev = "meeting-transcription") evs ->
  pending_for ProcessorSub x (map (fun ev => (ProcessorSub, ev)) evs) =
  count_topic "meeting-transcription" x evs.
Proof.
  induction 1 as [|ev evs Ht _ IH]; [done|].
  simpl. rewrite pending_for_cons, count_topic_cons, IH. simpl.
  timeout 20 bd_solve.
Qed.

Lemma mt_other t x evs :
  t <> "meeting-transcription" ->
  Forall (fun ev => topic ev = "meeting-transcription") evs -> count_topic t x evs = 0%nat.
Proof.
  intros Ht Hall. apply count_topic_other.
  eapply Forall_impl; [exact Hall|]. simpl. intros ev ->. congruence.
Qed.

Lemma submit_inv traceId b e y :
  sys_inv y -> sys_inv (after_run y (api_handler traceId b e 0%nat (sys_st y)) (pending y)).
Proof.
  pose proof (api_events traceId b e 0%nat (sys_st y)) as Hev.
  pose proof (api_handler_appends traceId b e 0%nat (sys_st y)) as Hp.
  unfold after_run. destruct (api_handler traceId b e 0%nat (sys_st y)) as [[r n] s'].
  simpl in *. apply new_events_app in Hp.
  set (N := new_events (sys_st y) s') in *.
  intros (H1 & H2 & H3). unfold sys_inv; cbn [sys_st pending]. rewrite Hp.
  rewrite (enqueue_all_mt _ Hev).
  split; [|split].
  - intros x. rewrite pending_for_app, !count_topic_app, (pending_for_all_mt x _ Hev),
      (mt_other "transcription-completed" x _ ltac:(discriminate) Hev),
      (mt_other "transcription-failed" x _ ltac:(discriminate) Hev).
    specialize (H1 x). lia.
  - intros x. rewrite !count_topic_app,
      (mt_other "summary-completed" x _ ltac:(discriminate) Hev).
    intros Hs. specialize (H2 x ltac:(lia)). lia.
  - intros ev Hin. apply elem_of_app in Hin as [Hin|Hin].
    + destruct (H3 ev Hin) as [Hm Ht]. split; [apply elem_of_app; by left | done].
    + apply list_elem_of_In, in_map_iff in Hin as [? [[=] _]].
Qed.

Lemma count_topic_nil t x : count_topic t x [] = 0%nat.
Proof. reflexivity. Qed.

Lemma pending_for_remove sb x pre p post :
  pending_for sb x (app pre (p :: post)) =
    ((if bool_decide (p.1 = sb /\ ev_id p.2 = Some x) then 1 else 0)
     + pending_for sb x (app pre post))%nat.
Proof. rewrite !pending_for_app, pending_for_cons. lia. Qed.

Lemma process_inv traceId inp e ev pre post y :
  sys_inv y ->
  pending y = app pre ((ProcessorSub, ev) :: post) ->
  ev_id ev = Some (pi_transcriptionId inp) ->
  sys_inv
    (after_run y (processor traceId inp e 0%nat (sys_st y))
       (if is_ok (fst (fst (processor traceId inp e 0%nat (sys_st y))))
        then app pre post else pending y)).
Proof.
  intros (H1 & H2 & H3) Hpend Hid.
  pose proof (processor_events traceId inp e 0%nat (sys_st y)) as Hev.
  pose proof (processor_appends traceId inp e 0%nat (sys_st y)) as Hp.
  unfold after_run. destruct (processor traceId inp e 0%nat (sys_st y)) as [[r n] s'].
  simpl in *. apply new_events_app in Hp.
  set (N := new_events (sys_st y) s') in *.
  unfold sys_inv; cbn [sys_st pending]. rewrite Hp.
  destruct Hev as [HN Hok].
  destruct (is_ok r) eqn:Er.
  2:{ destruct Hok as [Hok|Hok]; [discriminate|].
      rewrite Hok. unfold enqueue; simpl. rewrite !app_nil_r. split; [|split]; assumption. }
  clear Hok.
  assert (Hrm : forall x, pending_for ProcessorSub x (pending y) =
            ((if bool_decide (ev_id ev = Some x) then 1 else 0)
             + pending_for ProcessorSub x (app pre post))%nat).
  { intros x. rewrite Hpend, pending_for_remove. simpl.
    timeout 20 bd_solve. }
  assert (Hsub : forall q, q ∈ app pre post -> q ∈ pending y).
  { intros q Hq. rewrite Hpend. apply elem_of_app in Hq as [Hq|Hq];
      apply elem_of_app; [by left | right; by right]. }
  destruct HN as [HN | [ev' [HN [Ht Hid']]]]; rewrite HN.
  - unfold enqueue; simpl. rewrite !app_nil_r. split; [|split].
    + intros x. specialize (H1 x). specialize (Hrm x). lia.
    + exact H2.
    + intros ev0 Hin. exact (H3 ev0 (Hsub _ Hin)).
  - assert (Henq : enqueue [ev'] =
              if bool_decide (topic ev' = "transcription-completed")
              then [(SummarizerSub, ev')] else []).
    { unfold enqueue; simpl. destruct Ht as [Ht|Ht]; rewrite Ht; reflexivity. }
    split; [|split].
    + intros x. rewrite pending_for_app, !count_topic_app, !count_topic_cons, Henq.
      rewrite !count_topic_nil.
      assert (Hz : pending_for ProcessorSub x
                     (if bool_decide (topic ev' = "transcription-completed")
                      then [(SummarizerSub, ev')] else []) = 0%nat)
        by (case_bool_decide; reflexivity).
      rewrite Hz. specialize (H1 x). specialize (Hrm x).
      rewrite Hid' in *. rewrite Hid in Hrm.
      destruct Ht as [Ht|Ht]; rewrite Ht; timeout 20 bd_solve.
    + intros x. rewrite !count_topic_app, !count_topic_cons, !count_topic_nil.
      intros Hs. destruct Ht as [Ht|Ht]; rewrite Ht in *;
        timeout 20 bd_solve;
        (assert (0 < count_topic "summary-completed" x (published (sys_st y)))%nat by lia;
         specialize (H2 x ltac:(assumption)); lia).
    + intros ev0 Hin. apply elem_of_app in Hin as [Hin|Hin].
      * destruct (H3 ev0 (Hsub _ Hin)) as [Hm Ht0].
        split; [apply elem_of_app; by left | done].
      * rewrite Henq in Hin. case_bool_decide as Htc; [|by apply elem_of_nil in Hin].
        apply elem_of_cons in Hin as [[= ->]|Hin]; [|by apply elem_of_nil in Hin].
        split; [apply elem_of_app; right; apply elem_of_cons; by left | done].
Qed.

Lemma summarize_inv b e ev pre post y :
  sys_inv y ->
  pending y = app pre ((SummarizerSub, ev) :: post) ->
  ev_id ev = Some (si_transcriptionId b) ->
  sys_inv
    (after_run y (summarizer b e 0%nat (sys_st y))
       (if is_ok (fst (fst (summarizer b e 0%nat (sys_st y))))
        then app pre post else pending y)).
Proof.
  intros (H1 & H2 & H3) Hpend Hid.
  pose proof (summarizer_events b e 0%nat (sys_st y)) as Hev.
  pose proof (summarizer_appends b e 0%nat (sys_st y)) as Hp.
  unfold after_run. destruct (summarizer b e 0%nat (sys_st y)) as [[r n] s'].
  simpl in *. apply new_events_app in Hp.
  set (N := new_events (sys_st y) s') in *.
  unfold sys_inv; cbn [sys_st pending]. rewrite Hp.
  assert (Hsil : enqueue N = []).
  { apply enqueue_silent. eapply Forall_impl; [exact Hev|].
    intros ev0 [[Ht|Ht] _]; rewrite Ht; split; discriminate. }
  assert (Hother : forall t x, t <> "summary-completed" -> t <> "action-items-extracted" ->
                     count_topic t x N = 0%nat).
  { intros t x Ht1 Ht2. apply count_topic_other. eapply Forall_impl; [exact Hev|].
    intros ev0 [[Ht|Ht] _]; rewrite Ht; congruence. }
  assert (Hin_pend : (SummarizerSub, ev) ∈ pending y).
  { rewrite Hpend. apply elem_of_app; right; apply elem_of_cons; by left. }
  set (rest := if is_ok r then app pre post else pending y).
  assert (Hrest : forall sb x, sb <> SummarizerSub ->
            pending_for sb x rest = pending_for sb x (pending y)).
  { intros sb x Hsb. unfold rest. destruct (is_ok r); [|done].
    rewrite Hpend, pending_for_remove. simpl. bd_solve. }
  assert (Hsub : forall q, q ∈ rest -> q ∈ pending y).
  { intros q Hq. unfold rest in Hq. destruct (is_ok r); [|done].
    rewrite Hpend. apply elem_of_app in Hq as [Hq|Hq];
      apply elem_of_app; [by left | right; by right]. }
  rewrite Hsil, app_nil_r.
  split; [|split].
  - intros x. rewrite !count_topic_app,
      (Hother "transcription-completed" x ltac:(discriminate) ltac:(discriminate)),
      (Hother "transcription-failed" x ltac:(discriminate) ltac:(discriminate)),
      (Hother "meeting-transcription" x ltac:(discriminate) ltac:(discriminate)),
      (Hrest ProcessorSub x ltac:(discriminate)).
    specialize (H1 x). lia.
  - intros x. rewrite !count_topic_app,
      (Hother "transcription-completed" x ltac:(discriminate) ltac:(discriminate)).
    intros Hs.
    destruct (decide (0 < count_topic "summary-completed" x (published (sys_st y))))%nat as [Hp0|Hp0].
    { specialize (H2 x Hp0). lia. }
    assert (HN : (0 < count_topic "summary-completed" x N)%nat) by lia.
    apply count_pos_inv in HN as (ev0 & Hin0 & Ht0 & Hx0).
    rewrite Forall_forall in Hev. destruct (Hev ev0 Hin0) as [_ Hxb].
    rewrite Hx0 in Hxb. injection Hxb as ->.
    destruct (H3 ev Hin_pend) as [Hm Htc].
    pose proof (count_pos _ _ _ _ Hm Htc Hid). lia.
  - intros ev0 Hin. destruct (H3 ev0 (Hsub _ Hin)) as [Hm Ht0].
    split; [apply elem_of_app; by left | done].
Qed.

Lemma sys_inv_sys0 : sys_inv sys0.
Proof.
  unfold sys_inv, sys0. cbn [sys_st pending].
  split; [|split].
  - intros x. vm_compute. lia.
  - intros x. vm_compute. lia.
  - intros ev Hin. by apply elem_of_nil in Hin.
Qed.

Lemma sys_inv_step y y' : sys_step y y' -> sys_inv y -> sys_inv y'.
Proof.
  destruct 1 as [traceId b e y | traceId inp e ev pre post y Hp Hid | b e ev pre post y Hp Hid];
    intros Hi.
  - by apply submit_inv.
  - exact (process_inv traceId inp e ev pre post y Hi Hp Hid).
  - exact (summarize_inv b e ev pre post y Hi Hp Hid).
Qed.

Lemma sys_inv_reachable y : rtc sys_step sys0 y -> sys_inv y.
Proof.
  intros Hr. remember sys0 as y0 eqn:E.
  assert (Hi : sys_inv y0) by (subst; apply sys_inv_sys0). clear E.
  induction Hr as [|y1 y2 y3 Hs _ IH]; [done|].
  apply IH. exact (sys_inv_step _ _ Hs Hi).
Qed.

(** C2: for every work id [x], in every state the system reaches in which
    the Ingress Stage has published at most one [meeting-transcription]
    event for [x] (one record per id; see C5 for how ids are drawn), no
    [summary-completed] event for [x] is published after a
    [transcription-failed] event for [x]: the Analysis Stage is only
    delivered [transcription-completed] events, and a transcription run
    publishes at most one of [transcription-completed] and
    [transcription-failed]. *)
Theorem no_summary_after_failed_transcription (y : Sys) (x : string) :
  rtc sys_step sys0 y ->
  (count_topic "meeting-transcription" x (published (sys_st y)) <= 1)%nat ->
  ~ exists i j evf evs,
      (i < j)%nat /\
      published (sys_st y) !! i = Some evf /\
      topic evf = "transcription-failed" /\ ev_id evf = Some x /\
      published (sys_st y) !! j = Some evs /\
      topic evs = "summary-completed" /\ ev_id evs = Some x.
Proof.
  intros Hr Hc (i & j & evf & evs & _ & Hi & Htf & Hxf & Hj & Hsc & Hxs).
  destruct (sys_inv_reachable _ Hr) as (H1 & H2 & _).
  pose proof (count_pos _ _ _ _ (list_elem_of_lookup_2 _ _ _ Hi) Htf Hxf) as Pf.
  pose proof (count_pos _ _ _ _ (list_elem_of_lookup_2 _ _ _ Hj) Hsc Hxs) as Ps.
  specialize (H2 x Ps). specialize (H1 x). lia.
Qed.

Lemma no_summary_after_failed_transcription_witness :
  rtc sys_step sys0 ex_sys2 /\
  count_topic "meeting-transcription" "trans_1000_k3j9x0a1q" (published (sys_st ex_sys2)) = 1%nat /\
  count_topic "transcription-failed" "trans_1000_k3j9x0a1q" (published (sys_st ex_sys2)) = 1%nat /\
  ~ exists i j evf evs,
      (i < j)%nat /\
      published (sys_st ex_sys2) !! i = Some evf /\
      topic evf = "transcription-failed" /\ ev_id evf = Some "trans_1000_k3j9x0a1q" /\
      published (sys_st ex_sys2) !! j = Some evs /\
      topic evs = "summary-completed" /\ ev_id evs = Some "trans_1000_k3j9x0a1q".
Proof.
  assert (Hr : rtc sys_step sys0 ex_sys2).
  { eapply rtc_l; [exact (Submit "trace_1" ex_api_body (env_ok 1000) sys0)|].
    change (rtc sys_step ex_sys1 ex_sys2).
    eapply rtc_l; [|apply rtc_refl].
    apply (Process "trace_1" ex_input ex_failing_env
             (snd (nth 0 (pending ex_sys1) (ProcessorSub, mkEvent "" ∅))) [] [] ex_sys1);
      vm_compute; reflexivity. }
  assert (Hc : count_topic "meeting-transcription" "trans_1000_k3j9x0a1q"
                 (published (sys_st ex_sys2)) = 1%nat) by (vm_compute; reflexivity).
  split; [exact Hr|]. split; [exact Hc|]. split; [vm_compute; reflexivity|].
  apply (no_summary_after_failed_transcription ex_sys2 "trans_1000_k3j9x0a1q" Hr).
  rewrite Hc. lia.
Defined.

(** ** Text-Analysis Engine: shapes and ranges of its results *)

Lemma Forall_omap {A B} (f : A -> option B) (P : B -> Prop) (l : list A) :
  (forall x y, x ∈ l -> f x = Some y -> P y) -> Forall P (omap f l).
Proof.
  intros H. apply Forall_forall. intros y Hy.
  apply list_elem_of_omap in Hy as (x & Hx & Hf). eauto.
Qed.

Lemma omap_all_none {A B} (f : A -> option B) (l : list A) :
  (forall x, x ∈ l -> f x = None) -> omap f l = [].
Proof.
  induction l as [|x l IH]; intros H; [done|]. simpl.
  rewrite (H x ltac:(apply elem_of_cons; by left)). apply IH.
  intros y Hy. apply H. apply elem_of_cons; by right.
Qed.

Lemma split_on_nonempty c s : split_on c s <> [].
Proof.
  destruct s as [|a s]; simpl; [discriminate|].
  destruct (Ascii.eqb a c); [discriminate|]. destruct (split_on c s); discriminate.
Qed.

Lemma split_on_piece_length c s p :
  p ∈ split_on c s -> (String.length p <= String.length s)%nat.
Proof.
  revert p. induction s as [|a s IH]; simpl; intros p Hp.
  - apply list_elem_of_singleton in Hp. subst. simpl. lia.
  - destruct (Ascii.eqb a c).
    + apply elem_of_cons in Hp as [->|Hp]; simpl; [lia|]. specialize (IH _ Hp). lia.
    + destruct (split_on c s) as [|r rs] eqn:E.
      * apply list_elem_of_singleton in Hp. subst. simpl. lia.
      * apply elem_of_cons in Hp as [->|Hp]; simpl.
        -- assert (Hr : r ∈ r :: rs) by (apply elem_of_cons; by left).
           specialize (IH _ Hr). lia.
        -- assert (Hr : p ∈ r :: rs) by (apply elem_of_cons; by right).
           specialize (IH _ Hr). lia.
Qed.

Lemma js_find_in (f : string -> bool) (l : list string) x :
  js_find f l = Some x -> x ∈ l /\ f x = true.
Proof.
  induction l as [|y l IH]; simpl; [discriminate|].
  destruct (f y) eqn:Hf.
  - intros [= <-]. split; [apply elem_of_cons; by left | done].
  - intros H. destruct (IH H) as [Hin Hx]. split; [apply elem_of_cons; by right | done].
Qed.

Lemma omap_if_map {A B} (f : A -> option B) (p : A -> bool) (g : A -> B) (l : list A) :
  (forall x, f x = if p x then Some (g x) else None) ->
  omap f l = map g (filter p l).
Proof.
  intros Hf. induction l as [|x l IH]; [reflexivity|].
  rewrite filter_cons.
  change (omap f (x :: l)) with
    (match f x with Some y => y :: omap f l | None => omap f l end).
  rewrite Hf.
  case_decide as Hd; destruct (p x) eqn:E.
  - cbn [map]. by rewrite IH.
  - exfalso. exact Hd.
  - exfalso. apply Hd. exact I.
  - exact IH.
Qed.

(** [extractActionItems] keeps, in order, the lines of the lower-cased
    transcript that are longer than 30 characters and contain an action word
    (the qualifying lines).  When no line qualifies it returns its three
    default items.  Otherwise it returns one item per qualifying line, up to
    five: item [i] is [assignee ++ ": " ++ trim line] for the [i]-th
    qualifying line, where the assignee is ["Team member"] or one of the
    given participants, never an empty one. *)
Theorem extractActionItems_shape (transcript : string) (participants : option (list string)) :
  let items := extractActionItems transcript participants in
  let qualifying := filter (fun line => js_some (includes line) actionWords &&
                                        (30 <? js_length line)%Z)
                      (split_on newline (toLowerCase transcript)) in
  (qualifying = [] ->
   items = ["Team: Follow up on discussed topics from this meeting";
            "Organizer: Schedule next meeting to review progress";
            "Participants: Review meeting notes and prepare for next session"]) /\
  (qualifying <> [] ->
   length items = Nat.min 5 (length qualifying) /\
   forall i line, qualifying !! i = Some line -> (i < 5)%nat ->
     exists assignee, items !! i = Some (assignee ++ ": " ++ trim line) /\
       (assignee = "Team member" \/
        exists ps, participants = Some ps /\ assignee ∈ ps /\ assignee <> "")).
Proof.
  unfold extractActionItems. cbv zeta.
  erewrite omap_if_map by (intros x; reflexivity).
  destruct (filter (fun line => js_some (includes line) actionWords &&
                                (30 <? js_length line)%Z)
              (split_on newline (toLowerCase transcript))) as [|l0 ls] eqn:Eq.
  - split; [intros _; reflexivity | intros []; reflexivity].
  - split; [discriminate|]. intros _. cbn [map].
    split; [rewrite length_take; cbn [length]; rewrite length_map; lia|].
    intros i line Hi Hlt.
    rewrite lookup_take, decide_True by exact Hlt.
    change (_ :: map _ ls) with (map (fun line =>
      match match participants with
            | Some ps => js_find (fun p0 =>
                includes line (default "" (head (split_on space (toLowerCase p0))))) ps
            | None => None
            end with
      | Some p0 => if String.eqb p0 "" then "Team member" else p0
      | None => "Team member"
      end ++ ": " ++ trim line) (l0 :: ls)).
    rewrite list_lookup_fmap, Hi. cbn [fmap option_fmap option_map].
    eexists. split; [reflexivity|].
    destruct participants as [ps|]; [|by left].
    destruct (js_find _ ps) as [p0|] eqn:Hfind; [|by left].
    destruct (String.eqb p0 "") eqn:Hp; [by left|].
    right. exists ps. split; [done|].
    split; [exact (proj1 (js_find_in _ _ _ Hfind))|].
    by apply String.eqb_neq.
Qed.

Lemma omap_names_sublist {A} (g : string * A -> option string) (l : list (string * A)) :
  (forall x, g x = None \/ g x = Some x.1) -> omap g l `sublist_of` map fst l.
Proof.
  intros Hg. induction l as [|x l IH]; simpl; [constructor|].
  destruct (Hg x) as [-> | ->]; [by apply sublist_cons | by apply sublist_skip].
Qed.

Lemma NoDup_fst_unique {A} (l : list (string * A)) a b c :
  NoDup (map fst l) -> (a, b) ∈ l -> (a, c) ∈ l -> b = c.
Proof.
  induction l as [|[k v] l IH]; simpl; intros Hnd Hb Hc; [by apply elem_of_nil in Hb|].
  apply NoDup_cons in Hnd as [Hk Hnd].
  apply elem_of_cons in Hb as [Hb|Hb]; apply elem_of_cons in Hc as [Hc|Hc].
  - congruence.
  - injection Hb as Ha _. subst a. exfalso. apply Hk. apply list_elem_of_fmap. by exists (k, c).
  - injection Hc as Ha _. subst a. exfalso. apply Hk. apply list_elem_of_fmap. by exists (k, b).
  - eauto.
Qed.

(** [extractKeyTopics] returns its two default topics, or a non-empty list
    of topic names of [topicKeywords], in their declared order and without
    repetition; a topic is listed exactly when at least two of its keywords
    occur in the lower-cased transcript. *)
Theorem extractKeyTopics_shape (transcript : string) :
  let topics := extractKeyTopics transcript in
  (topics = ["General Discussion"; "Team Coordination"] \/
   (topics <> [] /\ topics `sublist_of` map fst topicKeywords)) /\
  (forall name kws, (name, kws) ∈ topicKeywords ->
     name ∈ topics <-> (2 <= length (filter (includes (toLowerCase transcript)) kws))%nat).
Proof.
  unfold extractKeyTopics. cbv zeta.
  set (g := fun tk : string * list string =>
              if Nat.leb 2 (length (filter (includes (toLowerCase transcript)) tk.2))
              then Some tk.1 else None).
  assert (Hg : forall x, g x = None \/ g x = Some x.1).
  { intros x. unfold g. destruct (Nat.leb _ _); auto. }
  assert (Hnd : NoDup (map fst topicKeywords)) by (apply (bool_decide_unpack _); vm_compute; reflexivity).
  assert (Hmem : forall name kws, (name, kws) ∈ topicKeywords ->
            name ∈ omap g topicKeywords <->
            (2 <= length (filter (includes (toLowerCase transcript)) kws))%nat).
  { intros name kws Hin. rewrite list_elem_of_omap. split.
    - intros ([k v] & Hkv & Hgk). unfold g in Hgk. cbn [fst snd] in Hgk.
      destruct (Nat.leb 2 _) eqn:Hle; [|discriminate]. injection Hgk as ->.
      rewrite <- (NoDup_fst_unique _ _ _ _ Hnd Hkv Hin). by apply Nat.leb_le.
    - intros Hle. exists (name, kws). split; [exact Hin|]. unfold g. cbn [fst snd].
      apply Nat.leb_le in Hle. by rewrite Hle. }
  fold g. destruct (omap g topicKeywords) as [|t ts] eqn:E.
  - split; [by left|]. intros name kws Hin. rewrite <- (Hmem name kws Hin). split.
    + intros H. exfalso.
      repeat (apply elem_of_cons in Hin as [Hin|Hin]; [injection Hin as -> ->|]);
        [..|by apply elem_of_nil in Hin];
        repeat (apply elem_of_cons in H as [H|H]; [discriminate|]); by apply elem_of_nil in H.
    + intros H; by apply elem_of_nil in H.
  - split; [right; split; [discriminate | rewrite <- E; by apply omap_names_sublist]|].
    exact Hmem.
Qed.

(** [extractDecisions] returns at most three decisions, each the trimmed
    text of a transcript line longer than 40 characters that contains a
    decision word (compared in lower case); a transcript of at most 40
    characters gives none. *)
Theorem extractDecisions_shape (transcript : string) :
  let ds := extractDecisions transcript in
  (length ds <= 3)%nat /\
  Forall (fun d => exists line, d = trim line /\ line ∈ split_on newline transcript /\
            (40 < js_length line)%Z /\
            js_some (includes (toLowerCase line)) decisionWords = true) ds /\
  ((js_length transcript <= 40)%Z -> ds = []).
Proof.
  unfold extractDecisions. cbv zeta.
  split; [rewrite length_take; lia|]. split.
  - apply Forall_take. apply Forall_omap. intros line y Hl Hy.
    destruct (js_some _ _ && _) eqn:Hc; [|discriminate].
    apply andb_true_iff in Hc as [Hs Hlen]. apply Z.ltb_lt in Hlen.
    injection Hy as <-. exists line. auto.
  - intros Hlen. rewrite omap_all_none; [reflexivity|].
    intros line Hl. pose proof (split_on_piece_length _ _ _ Hl) as Hp.
    unfold js_length in *.
    replace (40 <? Z.of_nat (String.length line))%Z with false
      by (symmetry; apply Z.ltb_ge; lia).
    by rewrite andb_false_r.
Qed.

Lemma generateInsights_bounds (transcript : string) (participants : option (list string))
    (duration : option Q) :
  let i := generateInsights transcript participants duration in
  (0 <= participationScore i <= 10)%Z /\ Z.even (participationScore i) = true /\
  engagementLevel i ∈ ["high"; "medium"; "low"] /\
  meetingEfficiency i ∈ ["high"; "medium"] /\
  (1 <= wordCount i)%Z /\ (1 <= participantCount i)%Z /\
  (match duration with None => True | Some d => (d == 0)%Q end ->
   estimatedSpeakingRate i = 150%Z /\ engagementLevel i = "medium").
Proof.
  unfold generateInsights. cbv zeta. cbn [participationScore engagementLevel
    meetingEfficiency wordCount participantCount estimatedSpeakingRate].
  split; [|split; [|split; [|split; [|split; [|split]]]]].
  - destruct participants; lia.
  - destruct participants as [ps|]; [|reflexivity].
    destruct (Z.min_spec 10 (Z.of_nat (length ps) * 2)) as [[_ ->]|[_ ->]];
      [reflexivity | rewrite Z.even_mul; apply orb_true_r].
  - repeat case_match; repeat (apply elem_of_cons; first [by left | right]).
    all: apply elem_of_cons; by left.
  - case_match; [apply elem_of_cons; by left | apply elem_of_cons; right; apply elem_of_cons; by left].
  - pose proof (split_on_nonempty space transcript).
    destruct (split_on space transcript); [done | simpl; lia].
  - destruct participants as [ps|]; [|lia]. destruct (Nat.eqb (length ps) 0) eqn:E; [lia|].
    apply Nat.eqb_neq in E. lia.
  - intros Hd.
    assert (Hr : match duration with
                 | Some d => if Qeq_bool d 0 then 150%Z
                             else js_round (inject_Z (Z.of_nat (length (split_on space transcript))) / (d / 60))
                 | None => 150%Z end = 150%Z).
    { destruct duration as [d|]; [|reflexivity]. by rewrite (proj2 (Qeq_bool_iff d 0) Hd). }
    rewrite Hr. split; reflexivity.
Qed.

Lemma analyzeSentiment_bounds (transcript : string) :
  let a := analyzeSentiment transcript in
  (6 # 10 <= confidence a <= 95 # 100)%Q /\
  ((confidence a == 6 # 10)%Q <-> overall a = "neutral") /\
  overall a ∈ ["positive"; "negative"; "neutral"] /\
  energyLevel a ∈ ["high"; "medium"].
Proof.
  unfold analyzeSentiment. cbv zeta. cbn [confidence overall energyLevel].
  set (p := Z.of_nat (length (filter (includes (toLowerCase transcript)) positiveWords))).
  set (n := Z.of_nat (length (filter (includes (toLowerCase transcript)) negativeWords))).
  assert (Hk : (0 <= inject_Z (Z.abs (p - n)))%Q).
  { change 0%Q with (inject_Z 0). rewrite <- Zle_Qle. lia. }
  set (m := Qmin (95 # 100) ((6 # 10) + inject_Z (Z.abs (p - n)) * (1 # 10))).
  assert (Hm1 : (m <= 95 # 100)%Q) by apply Q.le_min_l.
  assert (Hm2 : (6 # 10 <= m)%Q) by (apply Q.min_glb; lra).
  split; [split; assumption|]. split.
  - destruct (Z.eq_dec p n) as [Heq|Hne].
    + rewrite Heq, Z.ltb_irrefl. split; intros _; [reflexivity|].
      unfold m. rewrite Heq, Z.sub_diag. vm_compute. reflexivity.
    + assert (H1 : (1 <= inject_Z (Z.abs (p - n)))%Q).
      { change 1%Q with (inject_Z 1). rewrite <- Zle_Qle. lia. }
      assert (Hm3 : (7 # 10 <= m)%Q) by (apply Q.min_glb; lra).
      split; [intros Hq; lra|].
      destruct (n <? p)%Z eqn:E1, (p <? n)%Z eqn:E2; try discriminate.
      intros _. exfalso. apply Z.ltb_ge in E1, E2. lia.
  - split.
    + destruct (n <? p)%Z; [apply elem_of_cons; by left|].
      apply elem_of_cons; right. destruct (p <? n)%Z; apply elem_of_cons; [by left|].
      right. apply elem_of_cons; by left.
    + case_match; [apply elem_of_cons; by left|].
      apply elem_of_cons; right; apply elem_of_cons; by left.
Qed.

Lemma string_app_assoc (x y z : string) : (x ++ y) ++ z = x ++ (y ++ z).
Proof. induction x as [|a x IH]; [reflexivity | exact (f_equal (String a) IH)]. Qed.

Lemma string_app_nil_r (x : string) : x ++ "" = x.
Proof. induction x as [|a x IH]; [reflexivity | exact (f_equal (String a) IH)]. Qed.

Lemma rev_str_app (x y : string) : rev_str (x ++ y) = rev_str y ++ rev_str x.
Proof.
  induction x as [|a x IH].
  - change ("" ++ y) with y. change (rev_str "") with "". by rewrite string_app_nil_r.
  - change (String a x ++ y) with (String a (x ++ y)).
    change (rev_str (String a (x ++ y))) with (rev_str (x ++ y) ++ String a "").
    change (rev_str (String a x)) with (rev_str x ++ String a "").
    by rewrite IH, string_app_assoc.
Qed.

Lemma rev_str_involutive (x : string) : rev_str (rev_str x) = x.
Proof.
  induction x as [|a x IH]; [reflexivity|].
  change (rev_str (String a x)) with (rev_str x ++ String a "").
  rewrite rev_str_app, IH. reflexivity.
Qed.

Lemma trim_start_app_l (x y : string) :
  trim_start x <> "" -> trim_start (x ++ y) = trim_start x ++ y.
Proof.
  induction x as [|a x IH]; intros H; [by destruct H|].
  change (String a x ++ y) with (String a (x ++ y)).
  simpl. simpl in H. destruct (is_space a); [exact (IH H) | reflexivity].
Qed.

Lemma trim_frame (A W E : string) :
  trim_start A <> "" -> trim_start (rev_str E) <> "" ->
  trim (A ++ (W ++ E)) = trim_start A ++ (W ++ rev_str (trim_start (rev_str E))).
Proof.
  intros HA HE. unfold trim.
  rewrite (trim_start_app_l _ _ HA), !rev_str_app, !string_app_assoc.
  rewrite (trim_start_app_l _ _ HE), !rev_str_app, !rev_str_involutive.
  by rewrite !string_app_assoc.
Qed.

(** [generateMeetingSummary] fills a fixed template: it is
    [summary_head ++ minutes ++ "-minute meeting covered several key
    areas. " ++ sentences ++ summary_tail], the minutes being at least 1 and
    the sentences at most three trimmed transcript lines longer than 50
    characters, joined by spaces. *)
Theorem generateMeetingSummary_shape (transcript : string) :
  exists minutes sentences,
    generateMeetingSummary transcript =
      summary_head ++ string_of_Z minutes ++
      "-minute meeting covered several key areas. " ++
      String.concat " " sentences ++ summary_tail /\
    (1 <= minutes)%Z /\ (length sentences <= 3)%nat /\
    Forall (fun sentence => exists line, sentence = trim line /\
              line ∈ split_on newline transcript /\ (50 < js_length line)%Z) sentences.
Proof.
  unfold generateMeetingSummary. cbv zeta.
  match goal with |- context [trim (?a ++ (?x ++ (?b ++ (?c ++ ?e))))] =>
    replace (a ++ (x ++ (b ++ (c ++ e)))) with (a ++ ((x ++ (b ++ c)) ++ e))
      by (rewrite !string_app_assoc; reflexivity);
    rewrite (trim_frame a (x ++ (b ++ c)) e) by (vm_compute; congruence)
  end.
  eexists _, _. split.
  { match goal with |- trim_start ?a ++ (_ ++ rev_str (trim_start (rev_str ?e))) = _ =>
      change (trim_start a) with summary_head;
      change (rev_str (trim_start (rev_str e))) with summary_tail end.
    rewrite !string_app_assoc. reflexivity. }
  split; [|split].
  - unfold js_ceil.
    pose proof (split_on_nonempty space transcript) as Hne.
    set (w := Z.of_nat (length (split_on space transcript))).
    assert (Hw : (1 <= w)%Z) by (unfold w; destruct (split_on space transcript); [done|simpl; lia]).
    assert (Hq : (0 < inject_Z w / 150)%Q).
    { apply Qlt_shift_div_l; [reflexivity|]. rewrite Qmult_0_l.
      change 0%Q with (inject_Z 0). rewrite <- Zlt_Qlt. lia. }
    pose proof (Qle_ceiling (inject_Z w / 150)) as Hc.
    assert (H0 : (0 < inject_Z (Qceiling (inject_Z w / 150)))%Q) by (eapply Qlt_le_trans; eauto).
    change 0%Q with (inject_Z 0) in H0. rewrite <- Zlt_Qlt in H0. lia.
  - rewrite length_map, length_take. lia.
  - apply Forall_forall. intros sentence Hs.
    apply list_elem_of_fmap in Hs as (line & -> & Hl).
    apply elem_of_take in Hl as (i & Hi & _). apply list_elem_of_lookup_2 in Hi as Hl.
    apply list_elem_of_filter in Hl as [Hlen Hl]. apply list_elem_of_filter in Hl as [_ Hl].
    exists line. split; [reflexivity|]. split; [exact Hl|]. apply Z.ltb_lt. by apply Is_true_true.
Qed.

(** [generateInsights] gives a participation score that is even and
    between 0 and 10, an engagement level among [high], [medium] and [low],
    a meeting efficiency that is [high] or [medium], and at least one word
    and one participant; with no duration, or a duration of 0, it assumes
    150 words per minute and a [medium] engagement. *)
Theorem generateInsights_ranges (transcript : string) (participants : option (list string))
    (duration : option Q) :
  let i := generateInsights transcript participants duration in
  (0 <= participationScore i <= 10)%Z /\ Z.even (participationScore i) = true /\
  engagementLevel i ∈ ["high"; "medium"; "low"] /\
  meetingEfficiency i ∈ ["high"; "medium"] /\
  (1 <= wordCount i)%Z /\ (1 <= participantCount i)%Z /\
  (match duration with None => True | Some d => (d == 0)%Q end ->
   estimatedSpeakingRate i = 150%Z /\ engagementLevel i = "medium").
Proof. exact (generateInsights_bounds transcript participants duration). Qed.

(** [analyzeSentiment] gives a confidence between 0.6 and 0.95 that is 0.6
    exactly when the overall sentiment is [neutral], an overall sentiment
    among [positive], [negative] and [neutral], and an energy level that is
    [high] or [medium]. *)
Theorem analyzeSentiment_ranges (transcript : string) :
  let a := analyzeSentiment transcript in
  (6 # 10 <= confidence a <= 95 # 100)%Q /\
  ((confidence a == 6 # 10)%Q <-> overall a = "neutral") /\
  overall a ∈ ["positive"; "negative"; "neutral"] /\
  energyLevel a ∈ ["high"; "medium"].
Proof. exact (analyzeSentiment_bounds transcript). Qed.

(** ** The stream schema and what each handler writes *)

Lemma z_sentiment_val s :
  overall s ∈ ["positive"; "negative"; "neutral"] -> (0 <= confidence s <= 1)%Q ->
  energyLevel s ∈ ["high"; "medium"; "low"] -> z_sentiment (sentiment_val s) = true.
Proof.
  destruct s as [o c p n el]; cbn [overall confidence energyLevel]. intros Ho [Hc1 Hc2] He.
  cbv -[bool_decide Qle_bool inject_Z].
  rewrite (bool_decide_eq_true_2 _ Ho), (bool_decide_eq_true_2 _ He).
  rewrite (proj2 (Qle_bool_iff _ _) Hc1), (proj2 (Qle_bool_iff _ _) Hc2). reflexivity.
Qed.

Lemma z_number_in_num (lo hi z : Z) :
  (lo <= z <= hi)%Z -> z_number_in (inject_Z lo) (inject_Z hi) (num z) = true.
Proof.
  intros [H1 H2]. unfold num; cbn [z_number_in].
  assert (Q1 : (inject_Z lo <= inject_Z z)%Q) by (rewrite <- Zle_Qle; lia).
  assert (Q2 : (inject_Z z <= inject_Z hi)%Q) by (rewrite <- Zle_Qle; lia).
  rewrite (proj2 (Qle_bool_iff _ _) Q1), (proj2 (Qle_bool_iff _ _) Q2). reflexivity.
Qed.

Lemma z_insights_val i :
  (0 <= participationScore i <= 10)%Z ->
  engagementLevel i ∈ ["high"; "medium"; "low"] ->
  meetingEfficiency i ∈ ["high"; "medium"; "low"] ->
  z_insights (insights_val i) = true.
Proof.
  destruct i as [ps el me fu wc sr pc];
    cbn [participationScore engagementLevel meetingEfficiency]. intros Hp He Hm.
  pose proof (z_number_in_num 0 10 ps Hp) as Hn.
  unfold insights_val. cbv -[bool_decide z_number_in num inject_Z].
  change (z_number_in (inject_Z 0) (inject_Z 10) (num ps)) with (z_number_in 0 10 (num ps)) in Hn.
  rewrite Hn, (bool_decide_eq_true_2 _ He), (bool_decide_eq_true_2 _ Hm). reflexivity.
Qed.

Lemma z_string_array_strs l : z_string_array (strs l) = true.
Proof. unfold strs; cbn [z_string_array]. induction l as [|x l IH]; [reflexivity | exact IH]. Qed.

(** *** Write frames *)

Lemma ret_writes {A} P Q (a : A) : writes_only P Q (ret a).
Proof. intros e n s. exists [], []. rewrite !app_nil_r. naive_solver. Qed.

Lemma throw_writes {A} P Q (m : string) : writes_only P Q (@throw A m).
Proof. intros e n s. exists [], []. rewrite !app_nil_r. naive_solver. Qed.

Lemma bind_writes {A B} P Q (m : M A) (k : A -> M B) :
  writes_only P Q m -> (forall a, writes_only P Q (k a)) -> writes_only P Q (bind m k).
Proof.
  intros Hm Hk e n s. unfold bind. specialize (Hm e n s).
  destruct (m e n s) as [[[a|msg] n'] s']; [|exact Hm].
  destruct Hm as (ws1 & as1 & Hl1 & Ha1 & Hw1 & Hp1 & Hk1).
  destruct (Hk a e n' s') as (ws2 & as2 & Hl2 & Ha2 & Hw2 & Hp2 & Hk2).
  exists (app ws1 ws2), (app as1 as2). cbn [snd] in *.
  rewrite Hl2, Ha2, Hl1, Ha1, !app_assoc.
  split; [done|]. split; [done|]. split; [by apply Forall_app|].
  split; [by apply Forall_app|]. intros k0 Hk0. rewrite (Hk2 k0 Hk0). exact (Hk1 k0 Hk0).
Qed.

Lemma try_catch_writes {A} P Q (m : M A) (h : string -> M A) :
  writes_only P Q m -> (forall msg, writes_only P Q (h msg)) ->
  writes_only P Q (try_catch m h).
Proof.
  intros Hm Hh e n s. unfold try_catch. specialize (Hm e n s).
  destruct (m e n s) as [[[a|msg] n'] s']; [exact Hm|].
  destruct Hm as (ws1 & as1 & Hl1 & Ha1 & Hw1 & Hp1 & Hk1).
  destruct (Hh msg e n' s') as (ws2 & as2 & Hl2 & Ha2 & Hw2 & Hp2 & Hk2).
  exists (app ws1 ws2), (app as1 as2). cbn [snd] in *.
  rewrite Hl2, Ha2, Hl1, Ha1, !app_assoc.
  split; [done|]. split; [done|]. split; [by apply Forall_app|].
  split; [by apply Forall_app|]. intros k0 Hk0. rewrite (Hk2 k0 Hk0). exact (Hk1 k0 Hk0).
Qed.

Lemma now_writes P Q : writes_only P Q now.
Proof. intros e n s. exists [], []. rewrite !app_nil_r. naive_solver. Qed.

Lemma rand36_writes P Q : writes_only P Q rand36.
Proof. intros e n s. exists [], []. rewrite !app_nil_r. naive_solver. Qed.

Lemma rand_below_writes P Q k : writes_only P Q (rand_below k).
Proof. intros e n s. exists [], []. rewrite !app_nil_r. naive_solver. Qed.

Lemma emit_writes P Q ev : writes_only P Q (emit ev).
Proof.
  intros e n s. exists [], []. rewrite !app_nil_r. unfold emit, perform.
  destruct (fault e n); naive_solver.
Qed.

Lemma stream_set_writes (P : string * string -> Item -> Prop) Q g i d :
  P (g, i) d -> writes_only P Q (stream_set g i d).
Proof.
  intros Hd e n s. unfold stream_set, perform. destruct (fault e n).
  - exists [], []. rewrite !app_nil_r. naive_solver.
  - exists [(g, i, d)], []. cbn. rewrite app_nil_r.
    split; [done|]. split; [done|]. split; [by constructor|]. split; [done|].
    intros k Hk. rewrite lookup_insert_ne; [done|]. intros <-. exact (Hk d Hd).
Qed.

Lemma stream_add_writes P (Q : Item -> Prop) d :
  Q d -> writes_only P Q (stream_add d).
Proof.
  intros Hd e n s. unfold stream_add, perform. destruct (fault e n).
  - exists [], []. rewrite !app_nil_r. naive_solver.
  - exists [], [d]. cbn. rewrite app_nil_r. naive_solver.
Qed.

Ltac writes_tac :=
  repeat (intros; match goal with
  | |- writes_only _ _ (bind _ _) => apply bind_writes
  | |- writes_only _ _ (try_catch _ _) => apply try_catch_writes
  | |- writes_only _ _ (ret _) => apply ret_writes
  | |- writes_only _ _ (throw _) => apply throw_writes
  | |- writes_only _ _ now => apply now_writes
  | |- writes_only _ _ rand36 => apply rand36_writes
  | |- writes_only _ _ (rand_below _) => apply rand_below_writes
  | |- writes_only _ _ sleep => apply ret_writes
  | |- writes_only _ _ (stream_set _ _ _) => apply stream_set_writes
  | |- writes_only _ _ (stream_add _) => apply stream_add_writes
  | |- writes_only _ _ (emit _) => apply emit_writes
  | |- writes_only _ _ (if ?b then _ else _) => destruct b
  | |- writes_only _ _ (match ?x with _ => _ end) => destruct x
  end).

(** Evaluate the field lookups of an object literal, keeping its values. *)
Ltac item_lookups :=
  unfold stream_item_ok;
  repeat match goal with |- context [obj ?fs !! ?k] =>
    let v := eval vm_compute in (obj fs !! k) in
    replace (obj fs !! k) with v by (vm_compute; reflexivity)
  end.

Lemma processor_writes_only traceId inp :
  writes_only (fun k d => k = (traceId, pi_transcriptionId inp) /\ stream_item_ok d = true)
    (fun _ => False) (processor traceId inp).
Proof.
  unfold processor, transcriptionSteps; cbv zeta; cbn [for_each]. writes_tac.
  all: split; [reflexivity | vm_compute; reflexivity].
Qed.

Lemma summarizer_writes_only body :
  parse_iso (si_timestamp body) <> None ->
  writes_only (fun _ _ => False) (fun it => stream_item_ok it = true) (summarizer body).
Proof.
  intros Hts.
  destruct (analyzeSentiment_bounds (si_transcript body)) as ([Hc1 Hc2] & _ & Ho & He).
  destruct (generateInsights_bounds (si_transcript body) (si_participants body)
              (si_duration body)) as (Hp & _ & Hg & Hm & _).
  assert (Hsa : z_sentiment (sentiment_val (analyzeSentiment (si_transcript body))) = true).
  { apply z_sentiment_val; [exact Ho | split; lra |].
    repeat (apply elem_of_cons in He as [->|He]; [repeat (apply elem_of_cons; first [by left | right])|]).
    by apply elem_of_nil in He. }
  assert (Hin : z_insights (insights_val (generateInsights (si_transcript body)
                  (si_participants body) (si_duration body))) = true).
  { apply z_insights_val; [exact Hp | exact Hg |].
    repeat (apply elem_of_cons in Hm as [->|Hm]; [repeat (apply elem_of_cons; first [by left | right])|]).
    by apply elem_of_nil in Hm. }
  unfold summarizer, elapsed; cbv zeta.
  destruct (parse_iso (si_timestamp body)) as [t0|]; [|done].
  pose proof (z_string_array_strs (extractActionItems (si_transcript body) (si_participants body))) as Hai.
  pose proof (z_string_array_strs (extractKeyTopics (si_transcript body))) as Hkt.
  pose proof (z_string_array_strs (extractDecisions (si_transcript body))) as Hdc.
  revert Hsa Hin Hai Hkt Hdc.
  generalize (sentiment_val (analyzeSentiment (si_transcript body))) as sv.
  generalize (insights_val (generateInsights (si_transcript body) (si_participants body)
                (si_duration body))) as iv.
  generalize (generateMeetingSummary (si_transcript body)) as sm.
  generalize (strs (extractActionItems (si_transcript body) (si_participants body))) as ai.
  generalize (strs (extractKeyTopics (si_transcript body))) as kt.
  generalize (strs (extractDecisions (si_transcript body))) as dc.
  intros dc kt ai sm iv sv Hsa Hin Hai Hkt Hdc.
  destruct (si_participants body) as [ps|], (si_duration body) as [d|];
    cbn [fmap option_fmap option_map].
  all: try (pose proof (z_string_array_strs ps) as Hps; revert Hps;
            generalize (strs ps) as pv; intros pv Hps).
  all: writes_tac.
  all: item_lookups; cbn [z_opt z_req]; rewrite ?Hai, ?Hkt, ?Hdc, ?Hps, ?Hsa, ?Hin;
    vm_compute; reflexivity.
Qed.

(** The analysis handler writes no record with [set]. *)
Lemma summarizer_sets_nothing body :
  writes_only (fun _ _ => False) (fun _ => True) (summarizer body).
Proof.
  unfold summarizer, elapsed; cbv zeta.
  destruct (si_participants body), (si_duration body); cbn [fmap option_fmap option_map].
  all: writes_tac.
  all: exact I.
Qed.

Ltac exists_item P :=
  repeat (first [left; cbv beta; P | right]).

(** A run of the Transcription Stage writes only the record
    [(traceId, transcriptionId)] of its input: it adds no item, every other
    record keeps its value, and each update it pushes conforms to the
    stream's schema. *)
Theorem processor_store_frame traceId inp e n s :
  let '(_, _, s') := processor traceId inp e n s in
  added s' = added s /\
  (forall k, k <> (traceId, pi_transcriptionId inp) -> set_items s' !! k = set_items s !! k) /\
  Forall (fun w => w.1 = (traceId, pi_transcriptionId inp) /\ stream_item_ok w.2 = true)
    (new_sets s s').
Proof.
  pose proof (processor_writes_only traceId inp e n s) as H.
  destruct (processor traceId inp e n s) as [[r k] s']; cbn [snd] in H.
  destruct H as (ws & adds & Hl & Ha & Hw & Hp & Hk).
  destruct adds as [|a adds]; [|by inversion Hp].
  rewrite app_nil_r in Ha. split; [exact Ha|]. split.
  - intros k0 Hk0. apply Hk. intros d [Hd _]. exact (Hk0 Hd).
  - unfold new_sets. rewrite Hl, drop_app_length. exact Hw.
Qed.

(** A run of the Analysis Stage never updates a record written with [set]:
    the keyed items and the update log are unchanged, whatever the input.
    Its results only go to items it appends with [add], and when the
    event's timestamp parses each such item conforms to the stream's
    schema. *)
Theorem summarizer_store_frame body e n s :
  let '(_, _, s') := summarizer body e n s in
  set_items s' = set_items s /\ set_log s' = set_log s /\
  (parse_iso (si_timestamp body) <> None ->
   Forall (fun it => stream_item_ok it = true) (new_added s s')).
Proof.
  pose proof (summarizer_sets_nothing body e n s) as H0.
  pose proof (summarizer_writes_only body) as H1.
  destruct (summarizer body e n s) as [[r k] s'] eqn:Er; cbn [snd] in H0.
  destruct H0 as (ws & adds & Hl & Ha & Hw & Hp & Hk).
  destruct ws as [|w ws]; [|by inversion Hw].
  rewrite app_nil_r in Hl. split; [|split; [exact Hl|]].
  - apply map_eq. intros k0. apply Hk. intros d [].
  - intros Hts. destruct (H1 Hts e n s) as (ws' & adds' & Hl' & Ha' & Hw' & Hp' & Hk').
    rewrite Er in Ha'. cbn [snd] in Ha'.
    unfold new_added. rewrite Ha', drop_app_length. exact Hp'.
Qed.

Lemma summarizer_store_frame_witness :
  parse_iso (si_timestamp ex_body) <> None /\
  Forall (fun it => stream_item_ok it = true)
    (new_added st0 (snd (summarizer ex_body (env_ok 1000) 0%nat st0))).
Proof.
  assert (Hts : parse_iso (si_timestamp ex_body) <> None) by (vm_compute; discriminate).
  pose proof (summarizer_store_frame ex_body (env_ok 1000) 0%nat st0) as H.
  rewrite (triple_eta (summarizer ex_body (env_ok 1000) 0%nat st0)) in H.
  cbv beta iota in H.
  split; [exact Hts | exact (proj2 (proj2 H) Hts)].
Defined.

(** The Ingress handler never rejects: it answers 200 or 400.  It adds no
    item and writes only the record [(traceId, transcriptionId)] of the id
    it draws, with an update that conforms to the stream's schema.  A 200
    answer comes with exactly one update and exactly one
    [meeting-transcription] event; a 400 answer comes with no event, though
    the record may already have been written when the [emit] rejected. *)
Theorem api_handler_outcome traceId b e n s :
  let '(r, _, s') := api_handler traceId b e n s in
  let key := (traceId, transcription_id (clock e n) (random36 e (S n))) in
  exists resp, r = Ok resp /\
  added s' = added s /\
  Forall (fun w => w.1 = key /\ stream_item_ok w.2 = true) (new_sets s s') /\
  (forall k, k <> key -> set_items s' !! k = set_items s !! k) /\
  ((resp_status resp = 200%Z /\ length (new_sets s s') = 1%nat /\
    map topic (new_events s s') = ["meeting-transcription"]) \/
   (resp_status resp = 400%Z /\ new_events s s' = [])).
Proof.
  unfold api_handler. destruct (ab_model b) as [md|];
    destruct (ab_filename b) as [f|]; cbn [falsy option_map];
    try destruct (String.eqb f ""); run_m.
  all: unfold new_sets; new_suffix; cbv zeta.
  all: eexists; split; [reflexivity|]; split; [reflexivity|].
  all: split; [forall_l; cbv beta; (split; [reflexivity | vm_compute; reflexivity])|].
  all: split; [intros k Hk; first [reflexivity | rewrite lookup_insert_ne by congruence; reflexivity]|].
  all: first [left; split; [reflexivity | split; reflexivity] | right; split; reflexivity].
Qed.

(** When a run of the Transcription Stage publishes
    [transcription-completed], the same run has pushed a [completed] update
    of its record whose filename, duration, transcript, participants, action
    items, processing time and model are those of the event.  The event's
    duration is a number, and when [Math.floor(Math.random() * 3600)] lies
    in [[0, 3600)] it lies between 300 and 3899. *)
Theorem processor_completed_record traceId inp e n s :
  let '(_, _, s') := processor traceId inp e n s in
  forall ev, ev ∈ new_events s s' -> topic ev = "transcription-completed" ->
  Exists (fun w => w.1 = (traceId, pi_transcriptionId inp) /\
            w.2 !! "status" = Some (VStr "completed") /\
            Forall (fun k => data ev !! k = w.2 !! k)
              ["filename"; "duration"; "transcript"; "participants"; "actionItems";
               "processingTime"; "whisperModel"])
    (new_sets s s') /\
  exists dur, data ev !! "duration" = Some (num dur) /\
    ((forall k, (0 <= random_below e k 3600 < 3600)%Z) -> (300 <= dur <= 3899)%Z).
Proof.
  unfold processor; run_m.
  all: unfold new_sets; new_suffix.
  all: intros ev Hev Ht; apply list_elem_of_In in Hev; simpl in Hev;
    repeat destruct Hev as [<-|Hev]; try contradiction; cbn [topic] in Ht; try discriminate.
  all: split;
    [ exists_item ltac:(split; [reflexivity | split; [vm_compute; reflexivity
                                              | forall_l; vm_compute; reflexivity]])
    | match goal with |- context [(random_below ?e ?k 3600 + 300)%Z] =>
        exists (random_below e k 3600 + 300)%Z; split;
        [vm_compute; reflexivity | intros Hr; specialize (Hr k); lia] end ].
Qed.

Lemma processor_completed_record_witness :
  (forall k, (0 <= random_below (env_ok 1000) k 3600 < 3600)%Z) /\
  let '(_, _, s') := processor "trace_1" ex_input (env_ok 1000) 0%nat st0 in
  forall ev, ev ∈ new_events st0 s' -> topic ev = "transcription-completed" ->
  Exists (fun w => w.1 = ("trace_1", pi_transcriptionId ex_input) /\
            w.2 !! "status" = Some (VStr "completed") /\
            Forall (fun k => data ev !! k = w.2 !! k)
              ["filename"; "duration"; "transcript"; "participants"; "actionItems";
               "processingTime"; "whisperModel"])
    (new_sets st0 s') /\
  exists dur, data ev !! "duration" = Some (num dur) /\
    ((forall k, (0 <= random_below (env_ok 1000) k 3600 < 3600)%Z) -> (300 <= dur <= 3899)%Z).
Proof.
  split; [intros k; simpl; lia|].
  exact (processor_completed_record "trace_1" ex_input (env_ok 1000) 0%nat st0).
Defined.

(** A run of the Analysis Stage that succeeds appends exactly a [processing]
    item then a [completed] item, and publishes exactly [summary-completed]
    then [action-items-extracted]; the filename, summary, action items, key
    topics and insights of the first event, and the filename, action items
    and participants of the second, are those of the [completed] item. *)
Theorem summarizer_success_events body e n s :
  let '(r, _, s') := summarizer body e n s in
  r = Ok tt ->
  exists ev1 ev2,
    new_events s s' = [ev1; ev2] /\
    topic ev1 = "summary-completed" /\ topic ev2 = "action-items-extracted" /\
    map (fun it => it !! "status") (new_added s s') =
      [Some (VStr "processing"); Some (VStr "completed")] /\
    Exists (fun it => it !! "status" = Some (VStr "completed") /\
              Forall (fun k => data ev1 !! k = it !! k)
                ["filename"; "summary"; "actionItems"; "keyTopics"; "insights"] /\
              Forall (fun k => data ev2 !! k = it !! k)
                ["filename"; "actionItems"; "participants"])
      (new_added s s').
Proof.
  unfold summarizer; cbv zeta.
  generalize (generateMeetingSummary (si_transcript body)) as sm.
  generalize (extractActionItems (si_transcript body) (si_participants body)) as ai.
  generalize (extractKeyTopics (si_transcript body)) as kt.
  generalize (analyzeSentiment (si_transcript body)) as sa.
  generalize (extractDecisions (si_transcript body)) as dc.
  generalize (generateInsights (si_transcript body) (si_participants body)
                (si_duration body)) as ins.
  intros.
  destruct (si_participants body), (si_duration body); cbn [fmap option_fmap option_map].
  all: run_m.
  all: repeat match goal with |- context [elapsed ?a ?b] => destruct (elapsed a b) end.
  all: intros Hok; try discriminate.
  all: unfold new_added; new_suffix.
  all: do 2 eexists; split; [reflexivity|]; split; [reflexivity|]; split; [reflexivity|].
  all: split; [vm_compute; reflexivity|].
  all: exists_item ltac:(split; [vm_compute; reflexivity | split; forall_l; vm_compute; reflexivity]).
Qed.

Lemma summarizer_success_events_witness :
  fst (fst (summarizer ex_body (env_ok 1000) 0%nat st0)) = Ok tt /\
  exists ev1 ev2,
    new_events st0 (snd (summarizer ex_body (env_ok 1000) 0%nat st0)) = [ev1; ev2] /\
    topic ev1 = "summary-completed" /\ topic ev2 = "action-items-extracted" /\
    map (fun it => it !! "status") (new_added st0 (snd (summarizer ex_body (env_ok 1000) 0%nat st0))) =
      [Some (VStr "processing"); Some (VStr "completed")] /\
    Exists (fun it => it !! "status" = Some (VStr "completed") /\
              Forall (fun k => data ev1 !! k = it !! k)
                ["filename"; "summary"; "actionItems"; "keyTopics"; "insights"] /\
              Forall (fun k => data ev2 !! k = it !! k)
                ["filename"; "actionItems"; "participants"])
      (new_added st0 (snd (summarizer ex_body (env_ok 1000) 0%nat st0))).
Proof.
  pose proof (summarizer_success_events ex_body (env_ok 1000) 0%nat st0) as H.
  rewrite (triple_eta (summarizer ex_body (env_ok 1000) 0%nat st0)) in H.
  cbv beta iota in H.
  assert (Hok : fst (fst (summarizer ex_body (env_ok 1000) 0%nat st0)) = Ok tt)
    by (vm_compute; reflexivity).
  split; [exact Hok | exact (H Hok)].
Defined.

(** In every state the system reaches, for every work id [x]: the
    [transcription-completed] and [transcription-failed] events for [x]
    together never outnumber the [meeting-transcription] events for [x], and
    a [summary-completed] event for [x] is published only where a
    [transcription-completed] event for [x] is. *)
Theorem pipeline_event_counts (y : Sys) (x : string) :
  rtc sys_step sys0 y ->
  (count_topic "transcription-completed" x (published (sys_st y)) +
   count_topic "transcription-failed" x (published (sys_st y))
   <= count_topic "meeting-transcription" x (published (sys_st y)))%nat /\
  (0 < count_topic "summary-completed" x (published (sys_st y)) ->
   0 < count_topic "transcription-completed" x (published (sys_st y)))%nat.
Proof.
  intros Hr. destruct (sys_inv_reachable _ Hr) as (H1 & H2 & _).
  split; [specialize (H1 x); lia | apply H2].
Qed.

Lemma pipeline_event_counts_witness :
  rtc sys_step sys0 ex_sys2 /\
  (count_topic "transcription-completed" "trans_1000_k3j9x0a1q" (published (sys_st ex_sys2)) +
   count_topic "transcription-failed" "trans_1000_k3j9x0a1q" (published (sys_st ex_sys2))
   <= count_topic "meeting-transcription" "trans_1000_k3j9x0a1q" (published (sys_st ex_sys2)))%nat /\
  (0 < count_topic "summary-completed" "trans_1000_k3j9x0a1q" (published (sys_st ex_sys2)) ->
   0 < count_topic "transcription-completed" "trans_1000_k3j9x0a1q" (published (sys_st ex_sys2)))%nat.
Proof.
  assert (Hr : rtc sys_step sys0 ex_sys2).
  { eapply rtc_l; [exact (Submit "trace_1" ex_api_body (env_ok 1000) sys0)|].
    change (rtc sys_step ex_sys1 ex_sys2).
    eapply rtc_l; [|apply rtc_refl].
    apply (Process "trace_1" ex_input ex_failing_env
             (snd (nth 0 (pending ex_sys1) (ProcessorSub, mkEvent "" ∅))) [] [] ex_sys1);
      vm_compute; reflexivity. }
  split; [exact Hr | exact (pipeline_event_counts ex_sys2 "trans_1000_k3j9x0a1q" Hr)].
Defined.
